(** * Mark Levinson AVR control client (mlctrl.py): a shallow embedding

    The client of [custom_components/mark_levinson_avr/mlctrl/mlctrl.py]
    and the one line of [media_player.py] that reads its volume property
    are transcribed as Rocq functions.

    - Python [str] values are byte strings ([string]); the separators and
      markers of the protocol are ASCII, so splitting and substring tests
      on the UTF-8 bytes agree with Python's on code points.
    - A method is a computation in a state-and-exception monad over the
      object's fields: it yields the returned value or the raised
      exception, together with the fields as the call leaves them.
    - The TCP peer is a script: the outcome of the n-th exchange attempted
      on the socket.
    - Python floats are an interface ([PyFloat]); the theorems hold for
      every implementation, and an exact decimal implementation ([Dec])
      evaluates the code on concrete numerals.
    - [_LOGGER] calls and [print] only write output; they are left out,
      except where evaluating their argument can raise. *)

From Stdlib Require Import String Ascii List ZArith Bool Arith Lia.
From Stdlib Require Import Decimal DecimalString.
Import ListNotations.

Open Scope string_scope.

(** ** Python strings *)

Definition CR : ascii := "013"%char.
Definition LF : ascii := "010"%char.
Definition COLON : ascii := ":"%char.
Definition COMMA : ascii := ","%char.

(** [s.startswith(p)] *)
Fixpoint starts_with (p s : string) : bool :=
  match p with
  | EmptyString => true
  | String a p' =>
      match s with
      | EmptyString => false
      | String b s' => Ascii.eqb a b && starts_with p' s'
      end
  end.

(** [p in s] for two strings *)
Fixpoint str_in (p s : string) : bool :=
  starts_with p s ||
  match s with
  | EmptyString => false
  | String _ s' => str_in p s'
  end.

(** [s.split(sep)] for a one-character separator: never empty, keeps
    empty fields. *)
Fixpoint split (sep : ascii) (s : string) : list string :=
  match s with
  | EmptyString => [EmptyString]
  | String c s' =>
      if Ascii.eqb c sep then EmptyString :: split sep s'
      else match split sep s' with
           | [] => [String c EmptyString]
           | w :: ws => String c w :: ws
           end
  end.

(** [s.replace(c, "")] for a one-character [c] *)
Fixpoint remove_char (c : ascii) (s : string) : string :=
  match s with
  | EmptyString => EmptyString
  | String a s' =>
      if Ascii.eqb a c then remove_char c s' else String a (remove_char c s')
  end.

(** truth value of a string *)
Definition str_truthy (s : string) : bool :=
  match s with EmptyString => false | _ => true end.

(** number of occurrences of a character *)
Fixpoint count_char (c : ascii) (s : string) : nat :=
  match s with
  | EmptyString => 0
  | String a s' => (if Ascii.eqb a c then 1 else 0) + count_char c s'
  end.

(** ** UTF-8 decoding of the received bytes *)

Definition byte_in (lo hi : nat) (c : ascii) : bool :=
  let n := nat_of_ascii c in ((lo <=? n) && (n <=? hi))%nat.

Definition is_cont : ascii -> bool := byte_in 128 191.

(** Well-formed UTF-8 byte sequences (the table of the Unicode standard);
    [fuel] bounds the number of code points. *)
Fixpoint utf8_valid_fuel (fuel : nat) (s : string) : bool :=
  match fuel with
  | O => false
  | S fuel' =>
      match s with
      | EmptyString => true
      | String b0 r0 =>
          if byte_in 0 127 b0 then utf8_valid_fuel fuel' r0
          else
            match r0 with
            | EmptyString => false
            | String b1 r1 =>
                if byte_in 194 223 b0 then is_cont b1 && utf8_valid_fuel fuel' r1
                else
                  match r1 with
                  | EmptyString => false
                  | String b2 r2 =>
                      if byte_in 224 239 b0 then
                        (if byte_in 224 224 b0 then byte_in 160 191 b1
                         else if byte_in 237 237 b0 then byte_in 128 159 b1
                         else is_cont b1)
                        && is_cont b2 && utf8_valid_fuel fuel' r2
                      else
                        match r2 with
                        | EmptyString => false
                        | String b3 r3 =>
                            byte_in 240 244 b0
                            && (if byte_in 240 240 b0 then byte_in 144 191 b1
                                else if byte_in 244 244 b0 then byte_in 128 143 b1
                                else is_cont b1)
                            && is_cont b2 && is_cont b3
                            && utf8_valid_fuel fuel' r3
                        end
                  end
            end
      end
  end.

Definition utf8_valid (s : string) : bool :=
  utf8_valid_fuel (S (String.length s)) s.

(** ** Exceptions and results *)

Inductive exn : Type :=
| AttributeError
| TypeError
| KeyError
| IndexError
| ValueError
| ZeroDivisionError
| OSError                (* socket.error and its subclasses *)
| UnicodeDecodeError
| RecursionError
| RequestException.      (* requests.exceptions.RequestException *)

Definition exn_eqb (a b : exn) : bool :=
  match a, b with
  | AttributeError, AttributeError | TypeError, TypeError
  | KeyError, KeyError | IndexError, IndexError | ValueError, ValueError
  | ZeroDivisionError, ZeroDivisionError | OSError, OSError
  | UnicodeDecodeError, UnicodeDecodeError
  | RecursionError, RecursionError
  | RequestException, RequestException => true
  | _, _ => false
  end.

Inductive Result (A : Type) : Type :=
| Ret (a : A)
| Raise (e : exn).

Arguments Ret {A} a.
Arguments Raise {A} e.

(** [data.decode("utf-8")] *)
Definition decode_utf8 (data : string) : Result string :=
  if utf8_valid data then Ret data else Raise UnicodeDecodeError.

(** [l[i]] *)
Definition getitem {A : Type} (l : list A) (i : nat) : Result A :=
  match nth_error l i with
  | Some x => Ret x
  | None => Raise IndexError
  end.

(** ** The state-and-exception monad of a method body *)

Definition M (S A : Type) : Type := S -> Result A * S.

Definition ret {S A : Type} (a : A) : M S A := fun st => (Ret a, st).

Definition raise {S A : Type} (e : exn) : M S A := fun st => (Raise e, st).

Definition bind {S A B : Type} (m : M S A) (k : A -> M S B) : M S B :=
  fun st =>
    match m st with
    | (Ret a, st') => k a st'
    | (Raise e, st') => (Raise e, st')
    end.

Definition lift {S A : Type} (r : Result A) : M S A := fun st => (r, st).

(** [try: body except E: handler], [caught] being the membership test of
    the class [E]. What the body did to the fields before raising stays. *)
Definition try_except {S A : Type}
  (body : M S A) (caught : exn -> bool) (handler : M S A) : M S A :=
  fun st =>
    match body st with
    | (Ret a, st') => (Ret a, st')
    | (Raise e, st') => if caught e then handler st' else (Raise e, st')
    end.

Declare Scope py_scope.
Delimit Scope py_scope with py.

Notation "x <- c1 ;; c2" := (bind c1 (fun x => c2))
  (at level 61, c1 at next level, right associativity) : py_scope.
Notation "c1 ;;; c2" := (bind c1 (fun _ => c2))
  (at level 61, right associativity) : py_scope.

Open Scope py_scope.

(** ** Python floats *)

(** The operations on floats that the client uses. [float_of_str s] is
    [float(s)], [None] standing for [ValueError]; [float_str x] is
    [str(x)]; [float_truediv] is [/], [None] standing for
    [ZeroDivisionError]. *)
Class PyFloat (F : Type) : Type := {
  float_of_str : string -> option F;
  float_str : F -> string;
  float_add : F -> F -> F;
  float_sub : F -> F -> F;
  float_truediv : F -> F -> option F;
  float_of_int : Z -> F;
  float_leb : F -> F -> bool;
  float_half : F;        (* 0.5 *)
  float_minus_one : F;   (* -1.0 *)
  float_zero : F         (* 0.0 *)
}.

(** *** An exact decimal implementation

    [mkDec m k] is the number [m / 10^k]. It agrees with CPython on plain
    decimal numerals ([sign] digits [.] digits) of at most 15 significant
    digits and magnitude in [1e-4, 1e16), where binary rounding and the
    exponent notation of [repr] do not show; it is used only to run the
    code on such numerals. *)
Record Dec : Type := mkDec { dmant : Z; dscale : nat }.

Fixpoint dec_norm (m : Z) (k : nat) : Dec :=
  match k with
  | O => mkDec m 0
  | S k' => if (m mod 10 =? 0)%Z then dec_norm (m / 10) k' else mkDec m k
  end.

Definition digit_of (c : ascii) : option Z :=
  let n := Z.of_nat (nat_of_ascii c) in
  if ((48 <=? n) && (n <=? 57))%Z then Some (n - 48)%Z else None.

(** Reads a run of digits: the accumulated value, how many digits were
    read, and the rest of the string. *)
Fixpoint read_digits (s : string) (acc : Z) (n : nat) : Z * nat * string :=
  match s with
  | EmptyString => (acc, n, EmptyString)
  | String c s' =>
      match digit_of c with
      | Some d => read_digits s' (10 * acc + d)%Z (S n)
      | None => (acc, n, s)
      end
  end.

Definition dec_of_unsigned (s : string) : option (Z * nat) :=
  match read_digits s 0%Z 0 with
  | (ip, ni, EmptyString) => if (ni =? 0)%nat then None else Some (ip, 0)
  | (ip, ni, String c r) =>
      if Ascii.eqb c "."%char then
        match read_digits r ip 0 with
        | (m, nf, EmptyString) => if (ni + nf =? 0)%nat then None else Some (m, nf)
        | _ => None
        end
      else None
  end.

Definition dec_of_str (s : string) : option Dec :=
  match s with
  | EmptyString => None
  | String c r =>
      if Ascii.eqb c "-"%char then
        match dec_of_unsigned r with
        | Some (m, k) => Some (dec_norm (- m)%Z k)
        | None => None
        end
      else if Ascii.eqb c "+"%char then
        match dec_of_unsigned r with
        | Some (m, k) => Some (dec_norm m k)
        | None => None
        end
      else
        match dec_of_unsigned s with
        | Some (m, k) => Some (dec_norm m k)
        | None => None
        end
  end.

Definition digits_of_Z (z : Z) : string :=
  NilEmpty.string_of_uint (N.to_uint (Z.to_N z)).

Fixpoint zeros (n : nat) : string :=
  match n with O => EmptyString | S n' => String "0"%char (zeros n') end.

Definition dec_str (x : Dec) : string :=
  let m := Z.abs (dmant x) in
  let p := (10 ^ Z.of_nat (dscale x))%Z in
  let frac := digits_of_Z (m mod p) in
  (if (dmant x <? 0)%Z then "-" else "")
  ++ digits_of_Z (m / p) ++ "."
  ++ (if (dscale x =? 0)%nat then "0"
      else zeros (dscale x - String.length frac) ++ frac).

Definition dec_align (x y : Dec) : Z * Z * nat :=
  let k := Nat.max (dscale x) (dscale y) in
  ((dmant x * 10 ^ Z.of_nat (k - dscale x))%Z,
   (dmant y * 10 ^ Z.of_nat (k - dscale y))%Z, k).

Definition dec_add (x y : Dec) : Dec :=
  let '(a, b, k) := dec_align x y in dec_norm (a + b) k.

Definition dec_sub (x y : Dec) : Dec :=
  let '(a, b, k) := dec_align x y in dec_norm (a - b) k.

Definition dec_leb (x y : Dec) : bool :=
  let '(a, b, _) := dec_align x y in (a <=? b)%Z.

(** Quotient carried to twenty more decimal places than the dividend has:
    exact whenever the quotient terminates within them. *)
Definition dec_truediv (x y : Dec) : option Dec :=
  if (dmant y =? 0)%Z then None
  else
    Some (dec_norm
            (Z.quot (dmant x * 10 ^ Z.of_nat (dscale y + 20)) (dmant y))
            (dscale x + 20)).

#[global] Instance DecFloat : PyFloat Dec := {
  float_of_str := dec_of_str;
  float_str := dec_str;
  float_add := dec_add;
  float_sub := dec_sub;
  float_truediv := dec_truediv;
  float_of_int := fun z => mkDec z 0;
  float_leb := dec_leb;
  float_half := mkDec 5 1;
  float_minus_one := mkDec (-1) 0;
  float_zero := mkDec 0 0
}.

(** ** Python values that cross the client's interface *)

Section Client.

Context {F : Type} {FL : PyFloat F}.

Inductive PyVal : Type :=
| PStr (s : string)
| PBool (b : bool)
| PFloat (x : F)
| PInt (z : Z)
| PNone.

(** truth value, as [if v:] takes it *)
Definition truthy (v : PyVal) : bool :=
  match v with
  | PStr s => str_truthy s
  | PBool b => b
  | PFloat x => negb (float_leb x float_zero && float_leb float_zero x)
  | PInt z => negb (z =? 0)%Z
  | PNone => false
  end.

(** [needle in v]: only a string can be searched for a string. *)
Definition py_in (needle : string) (v : PyVal) : Result bool :=
  match v with
  | PStr s => Ret (str_in needle s)
  | _ => Raise TypeError
  end.

(** [v == s] for a string [s] *)
Definition py_eq_str (v : PyVal) (s : string) : bool :=
  match v with
  | PStr t => String.eqb t s
  | _ => false
  end.

(** [v.split(sep)]: a method of strings only. *)
Definition py_split (v : PyVal) (sep : ascii) : Result (list string) :=
  match v with
  | PStr s => Ret (split sep s)
  | _ => Raise AttributeError
  end.

Definition as_number (v : PyVal) : option F :=
  match v with
  | PFloat x => Some x
  | PInt z => Some (float_of_int z)
  | PBool b => Some (float_of_int (if b then 1 else 0)%Z)
  | PStr _ | PNone => None
  end.

(** [a / b]: defined between numbers; a string or [None] operand is a
    [TypeError]. *)
Definition py_truediv (a b : PyVal) : Result PyVal :=
  match as_number a, as_number b with
  | Some x, Some y =>
      match float_truediv x y with
      | Some q => Ret (PFloat q)
      | None => Raise ZeroDivisionError
      end
  | _, _ => Raise TypeError
  end.

(** ** Module constants *)

Definition DEFAULT_SOURCES : list string := [].

Definition COMMAND_MAPPING : list (string * string) :=
  [ ("POWER_OFF", "RQST:CS:PWR:STANDBY");
    ("POWER_ON", "RQST:CS:PWR:ON");
    ("SLEEP", "RQST:CS:PW:STANDBY");
    ("VOLUME_UP", "RQST:CS:IRDWNUP:VOLUME_UP");
    ("VOLUME_DOWN", "RQST:CS:IRDWNUP:VOLUME_DOWN");
    ("VOLUME", "RQST:CS:VOL:");
    ("MUTE_TOGGLE", "RQST:CS:MUTE:");
    ("SOURCE", "RQST:CS:ACT:");
    ("GET_SOURCES", "RQST:CS:REQ_ACT_LIST:?");
    ("HEARTBEAT", "RQST:CS:PWR:?") ].

(** [d[key]] on a dict with string keys *)
Fixpoint dict_getitem {V : Type} (d : list (string * V)) (key : string)
  : Result V :=
  match d with
  | [] => Raise KeyError
  | (k, v) :: d' => if String.eqb k key then Ret v else dict_getitem d' key
  end.

Definition POWER_ON : string := "ON".
Definition POWER_OFF : string := "OFF".
Definition POWER_STANDBY : string := "STANDBY".
Definition STATE_ON : string := "on".
Definition STATE_OFF : string := "off".

(** ** The socket and the peer behind it *)

(** What the peer lets one exchange (one [send], one [recv]) come to. *)
Inductive Exchange : Type :=
| Data (bytes : string)   (* the send goes through, recv(64) returns bytes *)
| SendError               (* socket.send raises *)
| RecvError.              (* the send goes through, socket.recv raises *)

Record Socket : Type := mkSocket {
  peer : nat -> Exchange;   (* the outcome of the n-th exchange *)
  exchanges : nat;          (* exchanges attempted so far *)
  outbox : list string      (* payloads handed to send, latest first *)
}.

(** What [socket.socket(...)] and [connect] come to. *)
Inductive ConnectFailure : Type := ConnectionError | gaierror | socket_error.

Inductive Network : Type :=
| Connected (p : nat -> Exchange)
| Unreachable (e : ConnectFailure).

(** ** class MLCtrl *)

Record MLCtrl : Type := mkMLCtrl {
  _name : option string;
  _host : string;
  _port : Z;
  _zone : string;
  _mute : string;
  _volume : F;
  _state : option string;
  _power : option string;
  _current_source : option string;
  _sources : list string;
  _socket : option Socket
}.

Definition with_mute (v : string) (o : MLCtrl) : MLCtrl :=
  mkMLCtrl (_name o) (_host o) (_port o) (_zone o) v (_volume o) (_state o)
    (_power o) (_current_source o) (_sources o) (_socket o).

Definition with_volume (v : F) (o : MLCtrl) : MLCtrl :=
  mkMLCtrl (_name o) (_host o) (_port o) (_zone o) (_mute o) v (_state o)
    (_power o) (_current_source o) (_sources o) (_socket o).

Definition with_state (v : option string) (o : MLCtrl) : MLCtrl :=
  mkMLCtrl (_name o) (_host o) (_port o) (_zone o) (_mute o) (_volume o) v
    (_power o) (_current_source o) (_sources o) (_socket o).

Definition with_power (v : option string) (o : MLCtrl) : MLCtrl :=
  mkMLCtrl (_name o) (_host o) (_port o) (_zone o) (_mute o) (_volume o)
    (_state o) v (_current_source o) (_sources o) (_socket o).

Definition with_current_source (v : option string) (o : MLCtrl) : MLCtrl :=
  mkMLCtrl (_name o) (_host o) (_port o) (_zone o) (_mute o) (_volume o)
    (_state o) (_power o) v (_sources o) (_socket o).

Definition with_sources (v : list string) (o : MLCtrl) : MLCtrl :=
  mkMLCtrl (_name o) (_host o) (_port o) (_zone o) (_mute o) (_volume o)
    (_state o) (_power o) (_current_source o) v (_socket o).

Definition with_socket (v : option Socket) (o : MLCtrl) : MLCtrl :=
  mkMLCtrl (_name o) (_host o) (_port o) (_zone o) (_mute o) (_volume o)
    (_state o) (_power o) (_current_source o) (_sources o) v.

(** [self.<field> = v] *)
Definition assign (upd : MLCtrl -> MLCtrl) : M MLCtrl unit :=
  fun o => (Ret tt, upd o).

Definition Py := M MLCtrl.

(** [except requests.exceptions.RequestException] *)
Definition is_RequestException (e : exn) : bool := exn_eqb e RequestException.

(** [except ValueError] *)
Definition is_ValueError (e : exn) : bool := exn_eqb e ValueError.

(** [self._socket.send(payload)]: [None] has no attribute [send]. *)
Definition socket_send (payload : string) : Py unit :=
  fun o =>
    match _socket o with
    | None => (Raise AttributeError, o)
    | Some sk =>
        match peer sk (exchanges sk) with
        | SendError =>
            (Raise OSError,
             with_socket (Some (mkSocket (peer sk) (S (exchanges sk)) (outbox sk))) o)
        | _ =>
            (Ret tt,
             with_socket (Some (mkSocket (peer sk) (exchanges sk) (payload :: outbox sk))) o)
        end
    end.

(** [self._socket.recv(64)]: closes the exchange that the send opened. *)
Definition socket_recv : Py string :=
  fun o =>
    match _socket o with
    | None => (Raise AttributeError, o)
    | Some sk =>
        let o' := with_socket (Some (mkSocket (peer sk) (S (exchanges sk)) (outbox sk))) o in
        match peer sk (exchanges sk) with
        | Data bytes => (Ret bytes, o')
        | SendError | RecvError => (Raise OSError, o')
        end
    end.

(** lines 82-95 *)
Definition _get_new_socket (net : Network) : option Socket :=
  match net with
  | Connected p => Some (mkSocket p 0 [])
  | Unreachable ConnectionError => None
  | Unreachable gaierror => None
  | Unreachable socket_error => None
  end.

(** lines 97-112 *)
Definition _exec_appcommand_post (command param : string) : Py PyVal :=
  try_except
    (let payload :=
       if str_truthy param
       then command ++ param ++ String CR EmptyString
       else command ++ String CR EmptyString in
     socket_send payload ;;;
     data <- socket_recv ;;
     _ <- lift (decode_utf8 data) ;;
     text <- lift (decode_utf8 data) ;;
     ret (PStr (remove_char LF (remove_char CR text))))
    is_RequestException
    (ret (PBool false)).

(** lines 114-116; [param] defaults to the empty string. *)
Definition send_command (command param : string) : Py PyVal :=
  comm <- lift (dict_getitem COMMAND_MAPPING command) ;;
  _exec_appcommand_post comm param.

(** *** Properties (lines 118-188) *)

Definition sources (o : MLCtrl) : list string := _sources o.
Definition current_source (o : MLCtrl) : option string := _current_source o.
Definition zone (o : MLCtrl) : string := _zone o.
Definition name (o : MLCtrl) : option string := _name o.
Definition host (o : MLCtrl) : string := _host o.

(** lines 147-152: [return str(self._volume)] *)
Definition volume (o : MLCtrl) : PyVal := PStr (float_str (_volume o)).

Definition power (o : MLCtrl) : option string := _power o.
Definition state (o : MLCtrl) : option string := _state o.
Definition muted (o : MLCtrl) : bool := String.eqb (_mute o) STATE_ON.
Definition port (o : MLCtrl) : Z := _port o.

Definition opt_eqb (a : option string) (s : string) : bool :=
  match a with Some t => String.eqb t s | None => false end.

Definition is_on (o : MLCtrl) : bool := opt_eqb (_state o) STATE_ON.
Definition is_off (o : MLCtrl) : bool := opt_eqb (_state o) STATE_OFF.

(** *** Refreshing the cached fields (lines 190-278) *)

Definition read {A : Type} (field : MLCtrl -> A) : Py A :=
  fun o => (Ret (field o), o).

(** [float(s)] *)
Definition py_float (s : string) : Result F :=
  match float_of_str s with
  | Some x => Ret x
  | None => Raise ValueError
  end.

(** lines 190-206 *)
Definition update_power_state : Py unit :=
  try_except
    (resp <- send_command "HEARTBEAT" "" ;;
     if py_eq_str resp "RSP:CS:PWR:STANDBY" then
       assign (with_power (Some POWER_STANDBY)) ;;;
       assign (with_state (Some STATE_OFF))
     else if py_eq_str resp "RSP:CS:PWR:ON" then
       assign (with_power (Some POWER_ON)) ;;;
       assign (with_state (Some STATE_ON))
     else if py_eq_str resp "RSP:CS:PWR:OFF" then
       assign (with_power (Some POWER_OFF)) ;;;
       assign (with_state (Some STATE_OFF))
     else ret tt)
    is_RequestException
    (ret tt).

(** lines 208-220 *)
Definition update_sources : Py unit :=
  try_except
    (resp <- send_command "GET_SOURCES" "" ;;
     if truthy resp then
       marked <- lift (py_in "RSP:CS:REQ_ACT_LIST:" resp) ;;
       if marked then
         parts <- lift (py_split resp COLON) ;;
         field <- lift (getitem parts 3) ;;
         assign (with_sources (split COMMA field))
       else ret tt
     else ret tt)
    is_RequestException
    (ret tt).

(** lines 222-243. [depth] is the number of nested activations of this
    method that the interpreter's recursion limit still allows; entering
    one more raises [RecursionError]. *)
Fixpoint update_current_source (depth : nat) : Py unit :=
  match depth with
  | O => raise RecursionError
  | S depth' =>
      try_except
        (resp <- send_command "SOURCE" "?" ;;
         if truthy resp then
           marked <- lift (py_in "RSP:CS:ACT:" resp) ;;
           if marked then
             ack <- lift (py_in "ACK" resp) ;;
             if ack then ret tt
             else
               aprof <- lift (py_in "APROF" resp) ;;
               if aprof then update_current_source depth'
               else
                 shown <- lift (py_split resp COLON) ;;
                 _ <- lift (getitem shown 3) ;;
                 parts <- lift (py_split resp COLON) ;;
                 field <- lift (getitem parts 3) ;;
                 assign (with_current_source (Some field))
           else ret tt
         else ret tt)
        is_RequestException
        (ret tt)
  end.

(** lines 245-264 *)
Definition update_volume : Py unit :=
  try_except
    (resp <- send_command "VOLUME" "?" ;;
     if truthy resp then
       rsp <- lift (py_in "RSP:CS:VOL:" resp) ;;
       marked <- (if rsp then ret true else lift (py_in "NTF:UI:VOL:" resp)) ;;
       if marked then
         ack <- lift (py_in "ACK" resp) ;;
         if ack then ret tt
         else
           try_except
             (_ <- lift (py_split resp COLON) ;;
              parts <- lift (py_split resp COLON) ;;
              field <- lift (getitem parts 3) ;;
              x <- lift (py_float field) ;;
              assign (with_volume x))
             is_ValueError
             (assign (with_volume float_minus_one))
       else ret tt
     else ret tt)
    is_RequestException
    (ret tt).

(** lines 266-278 *)
Definition update_mutestate : Py unit :=
  try_except
    (resp <- send_command "MUTE_TOGGLE" "?" ;;
     if truthy resp then
       marked <- lift (py_in "RSP:CS:MUTE:" resp) ;;
       if marked then
         parts <- lift (py_split resp COLON) ;;
         field <- lift (getitem parts 3) ;;
         assign (with_mute field)
       else ret tt
     else ret tt)
    is_RequestException
    (ret tt).

(** lines 73-80 *)
Definition update_all (depth : nat) : Py unit :=
  update_power_state ;;;
  update_volume ;;;
  update_mutestate ;;;
  p <- read _power ;;
  if opt_eqb p POWER_ON then
    update_current_source depth ;;;
    update_sources
  else ret tt.

(** lines 41-71; [net] is what the network answers for [(host, port)].
    The closing [print] concatenates a string with [self._power]. *)
Definition __init__ (net : Network) (depth : nat)
  (host : string) (port : Z) (name : option string) : Result unit * MLCtrl :=
  (assign (with_socket (_get_new_socket net)) ;;;
   update_all depth ;;;
   p <- read _power ;;
   match p with
   | Some _ => ret tt
   | None => raise TypeError
   end)
    (mkMLCtrl name host port "Main Zone" STATE_OFF float_minus_one
       None None None DEFAULT_SOURCES None).

(** *** Commands (lines 280-367) *)

Definition power_on : Py bool :=
  try_except
    (_ <- send_command "POWER_ON" "" ;;
     assign (with_power (Some POWER_ON)) ;;;
     assign (with_state (Some STATE_ON)) ;;;
     ret true)
    is_RequestException
    (ret false).

Definition power_off : Py bool :=
  try_except
    (_ <- send_command "POWER_OFF" "" ;;
     assign (with_power (Some POWER_OFF)) ;;;
     assign (with_state (Some STATE_OFF)) ;;;
     ret true)
    is_RequestException
    (ret false).

Definition sleep : Py bool :=
  try_except
    (_ <- send_command "SLEEP" "" ;;
     ret true)
    is_RequestException
    (ret false).

(** lines 331-340; [volume] is a float, so [float(volume)] is [volume]. *)
Definition set_volume (volume : F) : Py bool :=
  try_except
    (resp <- send_command "VOLUME" (float_str volume) ;;
     ack <- lift (py_in "ACK" resp) ;;
     if ack then
       assign (with_volume volume) ;;;
       ret true
     else ret true)
    is_RequestException
    (ret false).

Definition volume_up : Py bool :=
  try_except
    (v <- read _volume ;;
     let new_vol := float_add v float_half in
     _ <- set_volume new_vol ;;
     ret true)
    is_RequestException
    (ret false).

Definition volume_down : Py bool :=
  try_except
    (v <- read _volume ;;
     let new_vol := float_sub v float_half in
     _ <- set_volume new_vol ;;
     ret true)
    is_RequestException
    (ret false).

(** lines 342-352: [resp = self._current_source = source], so the test
    that follows looks at the requested name. *)
Definition select_source (source : string) : Py bool :=
  try_except
    (_ <- send_command "SOURCE" source ;;
     assign (with_current_source (Some source)) ;;;
     let resp := PStr source in
     ack <- lift (py_in "ACK" resp) ;;
     if ack then
       assign (with_current_source (Some source)) ;;;
       ret true
     else ret true)
    is_RequestException
    (ret false).

(** lines 354-367; a method that falls off its end returns [None]. *)
Definition mute (mute : bool) : Py PyVal :=
  try_except
    (if mute then
       _ <- send_command "MUTE_TOGGLE" "ON" ;;
       assign (with_mute STATE_ON) ;;;
       ret (PBool true)
     else if negb mute then
       _ <- send_command "MUTE_TOGGLE" "OFF" ;;
       assign (with_mute STATE_OFF) ;;;
       ret (PBool true)
     else ret PNone)
    is_RequestException
    (ret (PBool false)).

(** *** decode_message (lines 369-540) *)

Definition HEADERS : list (string * string) :=
  [ ("RQST", "Request"); ("RSP", "Response"); ("NTF", "Broadcast Notification") ].

Definition SOURCES : list (string * string) :=
  [ ("CS", "Control Source"); ("UI", "User Interaction"); ("AV", "Component") ].

Record CommandInfo : Type := mkInfo {
  info_name : string;
  accepts_param : bool;
  accepts_query : bool;
  ack_on_set : bool;
  param_format : list string;
  response : list string
}.

(** A value of the [COMMANDS] dict: a description, or only a name. *)
Inductive CommandEntry : Type :=
| Described (i : CommandInfo)
| Named (n : string).

Definition on_off : list string := ["ON"; "OFF"].

Definition COMMANDS : list (string * CommandEntry) :=
  [ ("ACT", Described (mkInfo "Activity" true true true ["Name"] []));
    ("APROF", Described (mkInfo "Audio Profile" true true true ["Name"] ["Name"]));
    ("AVSYNC", Described (mkInfo "Audio Video Sync Delay" true true true
                            ["0.0 - 500.0"] ["0.0 - 500.0"]));
    ("BAL", Described (mkInfo "Balance" true true true
                         ["ROFF"; "LOFF"; "-14.0 - 14.0"]
                         ["LOFF"; "ROFF"; "-14.0 - 14.0"]));
    ("DISPCFG", Described (mkInfo "Display Configuration" true true true
                             ["Name"] ["Name"]));
    ("ENCENTER", Described (mkInfo "Center Channel" true true true on_off on_off));
    ("ENSURR", Described (mkInfo "Surround Channel" true true true on_off on_off));
    ("ENREAR", Described (mkInfo "Rear Channel" true true true on_off on_off));
    ("ENSUB1", Described (mkInfo "Subwoofer 1" true true true on_off on_off));
    ("ENSUB2", Described (mkInfo "Subwoofer 2" true true true on_off on_off));
    ("FAULT", Described (mkInfo "Fault" false false false []
                           ["THERM"; "PWR"; "SIGNAL"; "UNKNOWN"]));
    ("FPDISPINTENS", Described (mkInfo "Front Panel Display Intensity" true true true
                                  ["OFF"; "LOW"; "MED"; "HIGH"]
                                  ["OFF"; "LOW"; "MED"; "HIGH"]));
    ("MONEN", Described (mkInfo "Monitor" true true true on_off on_off));
    ("MUTE", Described (mkInfo "Mute" true true true on_off on_off));
    ("NOP", Described (mkInfo "No Operation" false false true [] []));
    ("PWR", Described (mkInfo "Power" true true true
                         ["ON"; "STANDBY"] ["ON"; "STANDBY"]));
    ("REQ_ACT_LIST", Described (mkInfo "Request Activity List" false true false
                                  [] ["Name List"]));
    ("REQ_APROF_LIST", Described (mkInfo "Request Audio Profile List" false true false
                                    [] ["Name List"]));
    ("STATUS_MAIN", Named "Status");
    ("STATUS_SYSTEM", Named "System Status");
    ("SURRMODE", Named "Surround Mode");
    ("TRIGGER_1", Named "Trigger 1");
    ("TRIGGER_2", Named "Trigger 2");
    ("TRIGGER_3", Named "Trigger 3");
    ("TRIGGER_4", Named "Trigger 4");
    ("VOL", Named "Volume");
    ("VPROF", Named "Video Profile");
    ("ZOOM", Named "Zoom") ].

(** The four fields are read one after the other and the method ends
    there: the tables are built and not consulted, and nothing is
    returned. *)
Definition decode_message (message : string) : Py PyVal :=
  let message_components := split COLON message in
  let _ := (HEADERS, SOURCES, COMMANDS) in
  header <- lift (getitem message_components 0) ;;
  source <- lift (getitem message_components 1) ;;
  command <- lift (getitem message_components 2) ;;
  param <- lift (getitem message_components 3) ;;
  ret PNone.

(** ** The platform's reading of the volume (media_player.py)

    Lines 72 and 89: [self._avr.volume / 100 if self._avr.volume else 0.0]. *)
Definition MLAvrDevice_volume (avr : MLCtrl) : Result PyVal :=
  if truthy (volume avr)
  then py_truediv (volume avr) (PInt 100)
  else Ret (PFloat float_zero).

(** ** The public operations as a datatype *)

Inductive Op : Type :=
| Op_update_all (depth : nat)
| Op_update_power_state
| Op_update_sources
| Op_update_current_source (depth : nat)
| Op_update_volume
| Op_update_mutestate
| Op_power_on
| Op_power_off
| Op_sleep
| Op_volume_up
| Op_volume_down
| Op_set_volume (v : F)
| Op_select_source (s : string)
| Op_mute (b : bool)
| Op_send_command (command param : string)
| Op_decode_message (message : string).

Definition outcome {A : Type} (r : Result A) : option exn :=
  match r with Ret _ => None | Raise e => Some e end.

(** Runs one operation: the exception it raised, if any, and the fields
    afterwards. *)
Definition run_op (op : Op) (o : MLCtrl) : option exn * MLCtrl :=
  let run {A : Type} (m : Py A) := (outcome (fst (m o)), snd (m o)) in
  match op with
  | Op_update_all depth => run (update_all depth)
  | Op_update_power_state => run update_power_state
  | Op_update_sources => run update_sources
  | Op_update_current_source depth => run (update_current_source depth)
  | Op_update_volume => run update_volume
  | Op_update_mutestate => run update_mutestate
  | Op_power_on => run power_on
  | Op_power_off => run power_off
  | Op_sleep => run sleep
  | Op_volume_up => run volume_up
  | Op_volume_down => run volume_down
  | Op_set_volume v => run (set_volume v)
  | Op_select_source s => run (select_source s)
  | Op_mute b => run (mute b)
  | Op_send_command command param => run (send_command command param)
  | Op_decode_message message => run (decode_message message)
  end.

(** A caller that goes on after an exception, as the platform's polling
    loop does. *)
Fixpoint run_ops (ops : list Op) (o : MLCtrl) : MLCtrl :=
  match ops with
  | [] => o
  | op :: ops' => run_ops ops' (snd (run_op op o))
  end.

(** ** Auxiliary notions for the statements *)

(** The next exchange on the socket of [o] delivers the bytes [d], and
    they decode. *)
Definition delivers (o : MLCtrl) (d : string) : Prop :=
  match _socket o with
  | Some sk => peer sk (exchanges sk) = Data d /\ utf8_valid d = true
  | None => False
  end.

(** The text that the transport hands back for received bytes [d]. *)
Definition reply_text (d : string) : string :=
  remove_char LF (remove_char CR d).

(** The payload that [_exec_appcommand_post] builds. *)
Definition wire (command param : string) : string :=
  if str_truthy param
  then command ++ param ++ String CR EmptyString
  else command ++ String CR EmptyString.

(** The fields after one completed exchange in which [payload] was sent. *)
Definition exchanged (payload : string) (o : MLCtrl) : MLCtrl :=
  match _socket o with
  | Some sk =>
      with_socket
        (Some (mkSocket (peer sk) (S (exchanges sk)) (payload :: outbox sk))) o
  | None => o
  end.

(** Number of exchanges attempted on the socket. *)
Definition trips (o : MLCtrl) : nat :=
  match _socket o with Some sk => exchanges sk | None => 0 end.

(** A reply that makes [update_current_source] query again. *)
Definition is_echo (r : string) : bool :=
  str_truthy r && str_in "RSP:CS:ACT:" r && negb (str_in "ACK" r)
  && str_in "APROF" r.

(** The payload of the query that [update_current_source] sends. *)
Definition ACT_QUERY : string := wire "RQST:CS:ACT:" "?".

(** What the [i]-th exchange from now will come to. *)
Definition upcoming (o : MLCtrl) (i : nat) : option Exchange :=
  match _socket o with
  | Some sk => Some (peer sk (exchanges sk + i))
  | None => None
  end.

(** The [i]-th exchange from now delivers an echo. *)
Definition echo_at (o : MLCtrl) (i : nat) : bool :=
  match upcoming o i with
  | Some (Data d) => utf8_valid d && is_echo (reply_text d)
  | _ => false
  end.

(** The [i]-th exchange from now delivers a reply that is not an echo. *)
Definition settled_at (o : MLCtrl) (i : nat) : bool :=
  match upcoming o i with
  | Some (Data d) => utf8_valid d && negb (is_echo (reply_text d))
  | _ => false
  end.

(** The on/off state that goes with a power mode, in the words of the
    specification: on for ON, off for OFF and STANDBY, unset before the
    power is known. *)
Definition derived_state (p : option string) : option string :=
  match p with
  | None => None
  | Some s => if String.eqb s POWER_ON then Some STATE_ON else Some STATE_OFF
  end.

Definition known_power (p : option string) : Prop :=
  p = None \/ p = Some POWER_ON \/ p = Some POWER_OFF \/ p = Some POWER_STANDBY.

Definition state_follows_power (o : MLCtrl) : Prop :=
  known_power (_power o) /\ _state o = derived_state (_power o).

(** What a method may do to power and state between entry and exit: leave
    both, or set both to one of the three pairs. *)
Definition keeps_or_sets (o o' : MLCtrl) : Prop :=
  (_power o' = _power o /\ _state o' = _state o)
  \/ (_power o' = Some POWER_ON /\ _state o' = Some STATE_ON)
  \/ (_power o' = Some POWER_STANDBY /\ _state o' = Some STATE_OFF)
  \/ (_power o' = Some POWER_OFF /\ _state o' = Some STATE_OFF).

Definition tracks {A : Type} (m : Py A) : Prop :=
  forall o, keeps_or_sets o (snd (m o)).

End Client.

(** ** Concrete peers and objects, for running the code *)

(** A peer that answers the exchanges with the given outcomes in turn, and
    with [rest] from then on. *)
Definition script (l : list Exchange) (rest : Exchange) : nat -> Exchange :=
  fun n => nth n l rest.

(** An object as [__init__] leaves it before its first refresh, connected
    to peer [p]. *)
Definition fresh (p : nat -> Exchange) : @MLCtrl Dec :=
  mkMLCtrl None "avr.local" 15003 "Main Zone" STATE_OFF (mkDec (-1) 0)
    None None None DEFAULT_SOURCES (Some (mkSocket p 0 [])).

(** The same with no connection. *)
Definition unconnected : @MLCtrl Dec :=
  mkMLCtrl None "avr.local" 15003 "Main Zone" STATE_OFF (mkDec (-1) 0)
    None None None DEFAULT_SOURCES None.

Definition CRLF : string := String CR (String LF EmptyString).

(** Replies used below. *)
Definition APROF_ECHO : string := "RSP:CS:ACT:APROF".

(** Two echoes, then the current source. *)
Definition two_echoes : @MLCtrl Dec :=
  fresh (script [Data APROF_ECHO; Data APROF_ECHO; Data "RSP:CS:ACT:TV"] RecvError).

(** A device that answers every query with an echo. *)
Definition only_echoes : @MLCtrl Dec := fresh (fun _ => Data APROF_ECHO).

(** ** The platform entity (media_player.py, class MLAvrDevice) *)

Module MediaPlayer.

Section Entity.

Context {F : Type} {FL : PyFloat F}.

(** homeassistant's [MediaPlayerState.ON] and [MediaPlayerState.OFF] *)
Inductive MediaPlayerState : Type := ON | OFF.

Record MLAvrDevice : Type := mkMLAvrDevice {
  _avr : @MLCtrl F;
  _name : option string;
  _host : string;
  _port : Z;
  _source_list : list string;
  _volume : @PyVal F;
  _muted : bool;
  _current_source : option string;
  _attr_state : option MediaPlayerState
}.

(** lines 62-75. The object exists only if every assignment went through. *)
Definition __init__ (avr : @MLCtrl F) : Result MLAvrDevice :=
  match MLAvrDevice_volume avr with
  | Ret v =>
      Ret (mkMLAvrDevice avr (name avr) (host avr) (port avr) (sources avr)
             v (muted avr) (current_source avr) None)
  | Raise e => Raise e
  end.

(** lines 77-91; [depth] as for [update_current_source]. The client is
    refreshed in place, then the entity's attributes are assigned one by
    one, so an exception leaves those already assigned. *)
Definition update (depth : nat) (self : MLAvrDevice)
  : Result unit * MLAvrDevice :=
  let (r, avr) := update_all depth (_avr self) in
  let self1 :=
    mkMLAvrDevice avr (_name self) (_host self) (_port self)
      (_source_list self) (_volume self) (_muted self)
      (_current_source self) (_attr_state self) in
  match r with
  | Raise e => (Raise e, self1)
  | Ret _ =>
      let st :=
        if is_on avr then Some ON
        else if is_off avr then Some OFF
        else None in
      let self2 :=
        mkMLAvrDevice avr (_name self) (_host self) (_port self)
          (_source_list self) (_volume self) (_muted self)
          (_current_source self) st in
      match MLAvrDevice_volume avr with
      | Raise e => (Raise e, self2)
      | Ret v =>
          (Ret tt,
           mkMLAvrDevice avr (_name self) (_host self) (_port self)
             (_source_list self) v (muted avr) (current_source avr) st)
      end
  end.

End Entity.

End MediaPlayer.

(** ** Further notions for the statements *)

Section Frames.

Context {F : Type} {FL : PyFloat F}.

(** [command] is a key of [COMMAND_MAPPING]. *)
Definition known_command (command : string) : bool :=
  existsb (String.eqb command) (map fst COMMAND_MAPPING).

(** The method leaves the observation [f] of the fields as it found it. *)
Definition keeps {A B : Type} (f : @MLCtrl F -> B) (m : Py A) : Prop :=
  forall o, f (snd (m o)) = f o.

(** The method attempts at most [n] exchanges, and loses none made. *)
Definition advances {A : Type} (n : nat) (m : @Py F A) : Prop :=
  forall o, trips o <= trips (snd (m o)) /\ trips (snd (m o)) <= trips o + n.

(** The exchanges an operation may attempt. *)
Definition budget (op : @Op F) : nat :=
  match op with
  | Op_decode_message _ => 0
  | Op_update_current_source depth => depth
  | Op_update_all depth => 4 + depth
  | _ => 1
  end.

(** The cached fields that the refreshes and commands maintain. *)
Inductive Cached : Type :=
| CachedSources
| CachedCurrentSource
| CachedVolume
| CachedMute
| CachedPower.

(** The fields an operation has an assignment to, directly or through the
    methods it calls. *)
Definition may_write (op : @Op F) (c : Cached) : bool :=
  match op, c with
  | Op_update_all _, _ => true
  | Op_update_power_state, CachedPower => true
  | Op_update_sources, CachedSources => true
  | Op_update_current_source _, CachedCurrentSource => true
  | Op_update_volume, CachedVolume => true
  | Op_update_mutestate, CachedMute => true
  | Op_power_on, CachedPower => true
  | Op_power_off, CachedPower => true
  | Op_volume_up, CachedVolume => true
  | Op_volume_down, CachedVolume => true
  | Op_set_volume _, CachedVolume => true
  | Op_select_source _, CachedCurrentSource => true
  | Op_mute _, CachedMute => true
  | _, _ => false
  end.

(** Field [c] has the same value in [o] and [o']. *)
Definition same_cached (c : Cached) (o o' : @MLCtrl F) : Prop :=
  match c with
  | CachedSources => _sources o' = _sources o
  | CachedCurrentSource => _current_source o' = _current_source o
  | CachedVolume => _volume o' = _volume o
  | CachedMute => _mute o' = _mute o
  | CachedPower => _power o' = _power o /\ _state o' = _state o
  end.

(** The power is one of the three modes. *)
Definition power_is_known (o : @MLCtrl F) : Prop :=
  _power o = Some POWER_ON \/ _power o = Some POWER_OFF
  \/ _power o = Some POWER_STANDBY.

End Frames.

(** The peer behind the socket of an object, if it has one. *)
Definition connection {F : Type} (o : @MLCtrl F) : option (nat -> Exchange) :=
  option_map peer (_socket o).

(** The four fields that [decode_message] reads, in the order of lines
    537-540. *)
Inductive MessageField : Type :=
| FieldHeader
| FieldSource
| FieldCommand
| FieldParam.

(** The read at which [decode_message] stops: the first of the four index
    expressions, taken in source order, that is out of range; [None] when
    all four go through. *)
Definition failing_read (message : string) : option MessageField :=
  let message_components := split COLON message in
  match getitem message_components 0 with
  | Raise _ => Some FieldHeader
  | Ret _ =>
      match getitem message_components 1 with
      | Raise _ => Some FieldSource
      | Ret _ =>
          match getitem message_components 2 with
          | Raise _ => Some FieldCommand
          | Ret _ =>
              match getitem message_components 3 with
              | Raise _ => Some FieldParam
              | Ret _ => None
              end
          end
      end
  end.

(** A device in standby that answers the three refreshes of [update_all]. *)
Definition standby_peer : nat -> Exchange :=
  script [Data "RSP:CS:PWR:STANDBY"; Data "RSP:CS:VOL:23.5"; Data "RSP:CS:MUTE:OFF"]
    RecvError.

(** A device that is on and answers the five refreshes of [update_all]. *)
Definition on_peer : nat -> Exchange :=
  script [Data "RSP:CS:PWR:ON"; Data "RSP:CS:VOL:23.5"; Data "RSP:CS:MUTE:ON";
          Data "RSP:CS:ACT:TV"; Data "RSP:CS:REQ_ACT_LIST:TV,CD"]
    RecvError.

(** An entity around a client of the device in standby, with attributes
    as a constructor would have left them. *)
Definition standby_entity : @MediaPlayer.MLAvrDevice Dec :=
  MediaPlayer.mkMLAvrDevice (fresh standby_peer) None "avr.local" 15003 []
    (PFloat (mkDec 0 0)) false None None.

(** * Facts *)

(** ** The decimal floats on sample numerals *)

Example dec_str_samples :
  map dec_str [mkDec (-1) 0; mkDec 425 1; mkDec 5 1; mkDec 0 0; mkDec (-5) 2; mkDec 1005 2]
  = ["-1.0"; "42.5"; "0.5"; "0.0"; "-0.05"; "10.05"].
Proof. vm_compute. reflexivity. Qed.

Example dec_of_str_samples :
  map dec_of_str ["-5.0"; "23.5"; "garbage"; "42"; ".5"; "5."; "."; "-"; ""; "1.2.3"]
  = [Some (mkDec (-5) 0); Some (mkDec 235 1); None; Some (mkDec 42 0);
     Some (mkDec 5 1); Some (mkDec 5 0); None; None; None; None].
Proof. vm_compute. reflexivity. Qed.

Example dec_div_sample :
  dec_truediv (mkDec 425 1) (mkDec 100 0) = Some (mkDec 425 3).
Proof. vm_compute. reflexivity. Qed.

Example split_samples :
  map (split COLON) ["RSP:CS:PWR:ON"; ""; ":"; "a::b"]
  = [["RSP"; "CS"; "PWR"; "ON"]; [""]; [""; ""]; ["a"; ""; "b"]].
Proof. reflexivity. Qed.

Example utf8_samples :
  map utf8_valid
    ["RSP:CS:PWR:ON"; String "255"%char ""; String "195"%char (String "169"%char "");
     String "195"%char ""; String "192"%char (String "128"%char "")]
  = [true; false; true; false; false].
Proof. reflexivity. Qed.

(** ** Strings: fields and markers *)


Lemma split_length (c : ascii) (s : string) :
  List.length (split c s) = S (count_char c s).
Proof.
  induction s as [|a s IH]; simpl; [reflexivity|].
  destruct (Ascii.eqb a c); simpl.
  - now rewrite IH.
  - destruct (split c s) eqn:E; simpl in *; [discriminate IH | exact IH].
Qed.

Lemma starts_with_count (c : ascii) (p s : string) :
  starts_with p s = true -> count_char c p <= count_char c s.
Proof.
  revert s; induction p as [|a p IH]; intros s H; simpl in *; [lia|].
  destruct s as [|b s]; [discriminate|].
  apply andb_true_iff in H as [Hab Hps].
  apply Ascii.eqb_eq in Hab; subst b.
  specialize (IH _ Hps). simpl. lia.
Qed.

Lemma str_in_count (c : ascii) (p s : string) :
  str_in p s = true -> count_char c p <= count_char c s.
Proof.
  induction s as [|b s IH]; simpl; intros H.
  - rewrite orb_false_r in H. now apply starts_with_count with (c := c) in H.
  - apply orb_true_iff in H as [H|H].
    + now apply starts_with_count with (c := c) in H.
    + specialize (IH H). lia.
Qed.

(** A reply that contains a marker with three colons has a fourth field. *)
Lemma marked_has_field (m r : string) :
  3 <= count_char COLON m ->
  str_in m r = true ->
  getitem (split COLON r) 3 = Ret (nth 3 (split COLON r) EmptyString).
Proof.
  intros Hm Hin.
  pose proof (str_in_count COLON _ _ Hin) as Hc.
  pose proof (split_length COLON r) as Hl.
  unfold getitem.
  destruct (nth_error (split COLON r) 3) eqn:E.
  - now rewrite (nth_error_nth _ _ _ E).
  - apply nth_error_None in E. lia.
Qed.

Lemma short_has_no_field (s : string) :
  List.length (split COLON s) < 4 -> getitem (split COLON s) 3 = Raise IndexError.
Proof.
  intros H. unfold getitem.
  destruct (nth_error (split COLON s) 3) eqn:E; [|reflexivity].
  assert (3 < List.length (split COLON s)) by (apply nth_error_Some; congruence).
  lia.
Qed.

(** ** The transport *)

Section Facts.

Context {F : Type} {FL : PyFloat F}.

Implicit Types (o : @MLCtrl F) (d : string).

Lemma try_except_passes {A : Type} (m h : Py A) (caught : exn -> bool) o :
  (forall e, fst (m o) = Raise e -> caught e = false) ->
  try_except m caught h o = m o.
Proof.
  unfold try_except. destruct (m o) as [[a|e] o']; simpl; intros H.
  - reflexivity.
  - now rewrite (H e eq_refl).
Qed.

(** With no socket the attribute lookup fails before anything is sent, and
    the handler of [_exec_appcommand_post] does not take that exception. *)
Lemma exec_without_socket o (command param : string) :
  _socket o = None ->
  _exec_appcommand_post command param o = (Raise AttributeError, o).
Proof.
  intros H.
  unfold _exec_appcommand_post, try_except, bind, socket_send.
  now rewrite H.
Qed.

(** A delivered reply comes back as text, stripped of line ends. *)
Lemma exec_delivers o d (command param : string) :
  delivers o d ->
  _exec_appcommand_post command param o
  = (Ret (PStr (reply_text d)), exchanged (wire command param) o).
Proof.
  unfold delivers, exchanged. destruct (_socket o) as [sk|] eqn:E; [|tauto].
  intros [Hp Hv].
  unfold _exec_appcommand_post, try_except, bind, socket_send, socket_recv,
    lift, decode_utf8, ret.
  fold (wire command param).
  rewrite E, Hp. simpl. rewrite Hp, Hv. reflexivity.
Qed.

Lemma send_delivers o d (command comm param : string) :
  dict_getitem COMMAND_MAPPING command = Ret comm ->
  delivers o d ->
  send_command command param o
  = (Ret (PStr (reply_text d)), exchanged (wire comm param) o).
Proof.
  intros Hc Hd. unfold send_command, bind, lift. rewrite Hc.
  now apply exec_delivers.
Qed.

(** The handler's value [False] is never what the transport returns: no
    step of the body raises the exception that the handler names. *)
Lemma exec_never_False o (command param : string) :
  fst (_exec_appcommand_post command param o) <> Ret (PBool false).
Proof.
  unfold _exec_appcommand_post, try_except, bind, socket_send, socket_recv,
    lift, decode_utf8, ret.
  destruct (_socket o) as [sk|]; simpl; [|discriminate].
  destruct (peer sk (exchanges sk)) eqn:E; simpl; rewrite ?E; simpl;
    try discriminate.
  destruct (utf8_valid bytes); simpl; discriminate.
Qed.

(** ** update_power_state *)

(** C5. After a delivered heartbeat reply, [update_power_state] sets
    (power, state) to (ON, on), (STANDBY, off) or (OFF, off) when the reply
    text is exactly "RSP:CS:PWR:ON", "RSP:CS:PWR:STANDBY" or
    "RSP:CS:PWR:OFF"; for every other reply text power and state keep
    their values, only the socket having moved on. *)
Theorem update_power_state_maps_heartbeat o d :
  delivers o d ->
  let r := reply_text d in
  let o1 := exchanged (wire "RQST:CS:PWR:?" "") o in
  (r = "RSP:CS:PWR:ON" ->
   update_power_state o
   = (Ret tt, with_state (Some STATE_ON) (with_power (Some POWER_ON) o1)))
  /\ (r = "RSP:CS:PWR:STANDBY" ->
      update_power_state o
      = (Ret tt, with_state (Some STATE_OFF) (with_power (Some POWER_STANDBY) o1)))
  /\ (r = "RSP:CS:PWR:OFF" ->
      update_power_state o
      = (Ret tt, with_state (Some STATE_OFF) (with_power (Some POWER_OFF) o1)))
  /\ (r <> "RSP:CS:PWR:ON" -> r <> "RSP:CS:PWR:STANDBY" -> r <> "RSP:CS:PWR:OFF" ->
      update_power_state o = (Ret tt, o1)
      /\ _power o1 = _power o /\ _state o1 = _state o).
Proof.
  intros Hd r o1.
  assert (Hs : send_command "HEARTBEAT" "" o = (Ret (PStr r), o1))
    by (now apply send_delivers).
  unfold update_power_state, try_except, bind. rewrite Hs. simpl.
  repeat split.
  - intros ->. reflexivity.
  - intros ->. reflexivity.
  - intros ->. reflexivity.
  - apply String.eqb_neq in H, H0, H1. now rewrite H0, H, H1.
  - unfold o1, exchanged. now destruct (_socket o).
  - unfold o1, exchanged. now destruct (_socket o).
Qed.

(** ** select_source *)

(** C7. Whatever the name and whatever text the device replies,
    [select_source] returns True and leaves the requested name in
    [_current_source]; the two arms of the test on "ACK" end in the same
    fields and the same value. *)
Theorem select_source_is_optimistic o d (source : string) :
  delivers o d ->
  let o1 := exchanged (wire "RQST:CS:ACT:" source) o in
  let o2 := with_current_source (Some source) o1 in
  select_source source o = (Ret true, o2)
  /\ current_source o2 = Some source
  /\ forall ack : bool,
       (if ack
        then assign (with_current_source (Some source)) ;;; ret true
        else ret true) o2
       = (Ret true, o2).
Proof.
  intros Hd o1 o2.
  assert (Hs : send_command "SOURCE" source o = (Ret (PStr (reply_text d)), o1))
    by (now apply send_delivers).
  split; [|split].
  - unfold select_source, try_except, bind. rewrite Hs. simpl.
    destruct (str_in "ACK" source); reflexivity.
  - reflexivity.
  - intros [|]; reflexivity.
Qed.

(** ** set_volume *)

(** C3, as the code has it. On a delivered reply [set_volume v] returns
    True whatever the reply says, and stores [v] in [_volume] exactly when
    the reply text contains "ACK"; otherwise [_volume] keeps its value. *)
Theorem set_volume_stores_on_ack o d (v : F) :
  delivers o d ->
  let o1 := exchanged (wire "RQST:CS:VOL:" (float_str v)) o in
  set_volume v o
  = (Ret true, if str_in "ACK" (reply_text d) then with_volume v o1 else o1)
  /\ _volume (snd (set_volume v o))
     = (if str_in "ACK" (reply_text d) then v else _volume o).
Proof.
  intros Hd o1.
  assert (Hs : send_command "VOLUME" (float_str v) o
               = (Ret (PStr (reply_text d)), o1))
    by (now apply send_delivers).
  assert (E : set_volume v o
              = (Ret true, if str_in "ACK" (reply_text d) then with_volume v o1 else o1)).
  { unfold set_volume, try_except, bind. rewrite Hs. simpl.
    destruct (str_in "ACK" (reply_text d)); reflexivity. }
  split; [exact E|]. rewrite E. simpl.
  destruct (str_in "ACK" (reply_text d)); [reflexivity|].
  unfold o1, exchanged. now destruct (_socket o).
Qed.

(** ** update_sources *)

(** C2, as the code has it. On a delivered reply containing the marker
    "RSP:CS:REQ_ACT_LIST:", [update_sources] replaces [_sources] by the
    fourth colon-separated field of the reply split at commas; on any other
    reply [_sources] keeps its value. *)
Theorem update_sources_takes_fourth_field o d :
  delivers o d ->
  let r := reply_text d in
  let o1 := exchanged (wire "RQST:CS:REQ_ACT_LIST:?" "") o in
  update_sources o
  = (Ret tt,
     if str_in "RSP:CS:REQ_ACT_LIST:" r
     then with_sources (split COMMA (nth 3 (split COLON r) EmptyString)) o1
     else o1)
  /\ (str_in "RSP:CS:REQ_ACT_LIST:" r = false ->
      sources (snd (update_sources o)) = sources o).
Proof.
  intros Hd r o1.
  assert (Hs : send_command "GET_SOURCES" "" o = (Ret (PStr r), o1))
    by (now apply send_delivers).
  assert (E : update_sources o
              = (Ret tt,
                 if str_in "RSP:CS:REQ_ACT_LIST:" r
                 then with_sources (split COMMA (nth 3 (split COLON r) EmptyString)) o1
                 else o1)).
  { unfold update_sources, try_except, bind. rewrite Hs.
    destruct r as [|a r']; [reflexivity|].
    cbn [truthy str_truthy lift py_in py_split].
    destruct (str_in "RSP:CS:REQ_ACT_LIST:" (String a r')) eqn:Hm; [|reflexivity].
    rewrite (marked_has_field "RSP:CS:REQ_ACT_LIST:" _ (le_n 3) Hm). reflexivity. }
  split; [exact E|].
  intros Hm. rewrite E, Hm. simpl.
  unfold o1, exchanged. now destruct (_socket o).
Qed.

(** ** update_volume *)

(** C6, as the code has it. On a delivered reply that contains one of the
    two volume markers and no "ACK", [update_volume] stores [float] of the
    fourth colon-separated field, of either sign, and -1.0 when [float]
    rejects the field; on any other reply [_volume] keeps its value. *)
Theorem update_volume_stores_parsed_field o d :
  delivers o d ->
  let r := reply_text d in
  let o1 := exchanged (wire "RQST:CS:VOL:" "?") o in
  update_volume o
  = (Ret tt,
     if (str_in "RSP:CS:VOL:" r || str_in "NTF:UI:VOL:" r) && negb (str_in "ACK" r)
     then match float_of_str (nth 3 (split COLON r) EmptyString) with
          | Some x => with_volume x o1
          | None => with_volume float_minus_one o1
          end
     else o1)
  /\ (_volume (snd (update_volume o)) = _volume o
      \/ _volume (snd (update_volume o)) = float_minus_one
      \/ float_of_str (nth 3 (split COLON r) EmptyString)
         = Some (_volume (snd (update_volume o)))).
Proof.
  intros Hd r o1.
  assert (Hs : send_command "VOLUME" "?" o = (Ret (PStr r), o1))
    by (now apply send_delivers).
  assert (Hv : _volume o1 = _volume o)
    by (unfold o1, exchanged; now destruct (_socket o)).
  assert (E : update_volume o
              = (Ret tt,
                 if (str_in "RSP:CS:VOL:" r || str_in "NTF:UI:VOL:" r)
                    && negb (str_in "ACK" r)
                 then match float_of_str (nth 3 (split COLON r) EmptyString) with
                      | Some x => with_volume x o1
                      | None => with_volume float_minus_one o1
                      end
                 else o1)).
  { unfold update_volume, try_except at 1, bind at 1. rewrite Hs.
    destruct r as [|a r']; [reflexivity|].
    cbn [truthy str_truthy].
    assert (Hf : forall m, 3 <= count_char COLON m ->
                 str_in m (String a r') = true ->
                 getitem (split COLON (String a r')) 3
                 = Ret (nth 3 (split COLON (String a r')) EmptyString))
      by (intros; now apply marked_has_field with (m := m)).
    unfold bind, lift, py_in, py_split, ret, try_except, assign, py_float.
    destruct (str_in "RSP:CS:VOL:" (String a r')) eqn:H1;
      [|destruct (str_in "NTF:UI:VOL:" (String a r')) eqn:H2]; cbn [orb andb];
      try reflexivity;
      (destruct (str_in "ACK" (String a r')); cbn [negb]; [reflexivity|]).
    - rewrite (Hf "RSP:CS:VOL:" (le_n 3) H1).
      destruct (float_of_str _); reflexivity.
    - rewrite (Hf "NTF:UI:VOL:" (le_n 3) H2).
      destruct (float_of_str _); reflexivity. }
  split; [exact E|]. rewrite E. cbn [snd].
  destruct ((str_in "RSP:CS:VOL:" r || str_in "NTF:UI:VOL:" r) && negb (str_in "ACK" r)).
  - destruct (float_of_str (nth 3 (split COLON r) EmptyString)) eqn:Ef.
    + right; right. reflexivity.
    + right; left. reflexivity.
  - left. exact Hv.
Qed.

(** ** update_current_source *)

Lemma upcoming_exchanged o (w : string) (i : nat) :
  upcoming (exchanged w o) i = upcoming o (S i).
Proof.
  unfold upcoming, exchanged. destruct (_socket o) as [sk|] eqn:E; simpl.
  - f_equal. f_equal. lia.
  - now rewrite E.
Qed.

Lemma trips_exchanged o (w : string) :
  _socket o <> None -> trips (exchanged w o) = S (trips o).
Proof.
  unfold trips, exchanged. destruct (_socket o); simpl; [reflexivity|congruence].
Qed.

Lemma upcoming_delivers o d :
  upcoming o 0 = Some (Data d) -> utf8_valid d = true -> delivers o d.
Proof.
  unfold upcoming, delivers. destruct (_socket o) as [sk|]; [|discriminate].
  rewrite Nat.add_0_r. intros [= ->] Hv. now split.
Qed.

(** The method never lets the exception of its own handler out. *)
Lemma ucs_never_RequestException (n : nat) o :
  forall e, fst (update_current_source n o) = Raise e ->
            is_RequestException e = false.
Proof.
  destruct n as [|n]; simpl.
  - intros e [= <-]. reflexivity.
  - unfold try_except.
    match goal with |- context [match ?b with _ => _ end] => destruct b as [[u|e'] o'] end;
      simpl; [discriminate|].
    destruct (is_RequestException e') eqn:E; simpl; [discriminate|].
    intros e [= <-]. exact E.
Qed.

Lemma ucs_echo_step (n : nat) o :
  echo_at o 0 = true ->
  update_current_source (S n) o = update_current_source n (exchanged ACT_QUERY o).
Proof.
  unfold echo_at. destruct (upcoming o 0) as [[d| |]|] eqn:U; try discriminate.
  intros H. apply andb_true_iff in H as [Hv He].
  pose proof (upcoming_delivers _ _ U Hv) as Hd.
  assert (Hs : send_command "SOURCE" "?" o
               = (Ret (PStr (reply_text d)), exchanged ACT_QUERY o))
    by (now apply send_delivers).
  unfold is_echo in He.
  apply andb_true_iff in He as [He Hap].
  apply andb_true_iff in He as [He Hack].
  apply andb_true_iff in He as [Ht Hm].
  apply negb_true_iff in Hack.
  simpl update_current_source.
  rewrite <- (try_except_passes (update_current_source n) (ret tt)
                is_RequestException (exchanged ACT_QUERY o))
    by apply ucs_never_RequestException.
  unfold try_except, bind at 1. rewrite Hs.
  cbn [truthy]. rewrite Ht.
  unfold bind, lift, py_in. rewrite Hm, Hack, Hap. reflexivity.
Qed.

Lemma echo_at_exchanged o (w : string) (i : nat) :
  echo_at (exchanged w o) i = echo_at o (S i).
Proof. unfold echo_at. now rewrite upcoming_exchanged. Qed.

Lemma settled_at_exchanged o (w : string) (i : nat) :
  settled_at (exchanged w o) i = settled_at o (S i).
Proof. unfold settled_at. now rewrite upcoming_exchanged. Qed.

Lemma echo_at_connected o (i : nat) : echo_at o i = true -> _socket o <> None.
Proof.
  unfold echo_at, upcoming. destruct (_socket o); [discriminate|discriminate].
Qed.

(** A reply that is not an echo ends the method after its one exchange. *)
Lemma ucs_settled (n : nat) o :
  settled_at o 0 = true ->
  fst (update_current_source (S n) o) = Ret tt
  /\ trips (snd (update_current_source (S n) o)) = S (trips o).
Proof.
  unfold settled_at. destruct (upcoming o 0) as [[d| |]|] eqn:U; try discriminate.
  intros H. apply andb_true_iff in H as [Hv He]. apply negb_true_iff in He.
  pose proof (upcoming_delivers _ _ U Hv) as Hd.
  assert (Hs : send_command "SOURCE" "?" o
               = (Ret (PStr (reply_text d)), exchanged ACT_QUERY o))
    by (now apply send_delivers).
  assert (Ht : trips (exchanged ACT_QUERY o) = S (trips o)).
  { apply trips_exchanged. unfold upcoming in U. destruct (_socket o); congruence. }
  cut (exists o', update_current_source (S n) o = (Ret tt, o')
                   /\ trips o' = S (trips o)).
  { intros (o' & E & Ho'). rewrite E. now split. }
  simpl update_current_source.
  unfold try_except, bind at 1. rewrite Hs.
  unfold is_echo in He.
  destruct (reply_text d) as [|a r'] eqn:Er; [eexists; split; [reflexivity|exact Ht]|].
  cbn [truthy str_truthy andb] in *.
  unfold bind, lift, py_in, py_split, ret, assign.
  destruct (str_in "RSP:CS:ACT:" (String a r')) eqn:Hm;
    [|eexists; split; [reflexivity|exact Ht]].
  destruct (str_in "ACK" (String a r')) eqn:Hack;
    [eexists; split; [reflexivity|exact Ht]|].
  destruct (str_in "APROF" (String a r')) eqn:Hap; [discriminate He|].
  rewrite (marked_has_field "RSP:CS:ACT:" _ (le_n 3) Hm).
  eexists; split; [reflexivity|exact Ht].
Qed.

Lemma ucs_after_echoes (k : nat) :
  forall (depth : nat) o,
    (forall i, i < k -> echo_at o i = true) ->
    settled_at o k = true ->
    k < depth ->
    fst (update_current_source depth o) = Ret tt
    /\ trips (snd (update_current_source depth o)) = trips o + S k.
Proof.
  induction k as [|k IH]; intros depth o Hecho Hset Hlt;
    (destruct depth as [|n]; [lia|]).
  - rewrite Nat.add_1_r. now apply ucs_settled.
  - assert (H0 : echo_at o 0 = true) by (apply Hecho; lia).
    rewrite (ucs_echo_step n o H0).
    destruct (IH n (exchanged ACT_QUERY o)) as [Hr Ht].
    + intros i Hi. rewrite echo_at_exchanged. apply Hecho. lia.
    + now rewrite settled_at_exchanged.
    + lia.
    + split; [exact Hr|]. rewrite Ht.
      rewrite (trips_exchanged o ACT_QUERY (echo_at_connected _ _ H0)). lia.
Qed.

Lemma ucs_echoes_forever (depth : nat) :
  forall o,
    (forall i, echo_at o i = true) ->
    fst (update_current_source depth o) = Raise RecursionError
    /\ trips (snd (update_current_source depth o)) = trips o + depth.
Proof.
  induction depth as [|n IH]; intros o Hecho.
  - simpl. split; [reflexivity|lia].
  - rewrite (ucs_echo_step n o (Hecho 0)).
    destruct (IH (exchanged ACT_QUERY o)) as [Hr Ht].
    + intros i. rewrite echo_at_exchanged. apply Hecho.
    + split; [exact Hr|]. rewrite Ht.
      rewrite (trips_exchanged o ACT_QUERY (echo_at_connected _ _ (Hecho 0))). lia.
Qed.

Lemma ucs_echoes_exhaust (depth : nat) :
  forall o,
    (forall i, i < depth -> echo_at o i = true) ->
    fst (update_current_source depth o) = Raise RecursionError
    /\ trips (snd (update_current_source depth o)) = trips o + depth.
Proof.
  induction depth as [|n IH]; intros o Hecho.
  - simpl. split; [reflexivity|lia].
  - assert (H0 : echo_at o 0 = true) by (apply Hecho; lia).
    rewrite (ucs_echo_step n o H0).
    destruct (IH (exchanged ACT_QUERY o)) as [Hr Ht].
    + intros i Hi. rewrite echo_at_exchanged. apply Hecho. lia.
    + split; [exact Hr|]. rewrite Ht.
      rewrite (trips_exchanged o ACT_QUERY (echo_at_connected _ _ H0)). lia.
Qed.

(** C4, as the code has it. [update_current_source] makes one exchange,
    and one more for every echo it is answered with, the recursion limit
    being the only bound. Answered with [k] echoes and then a reply that
    is not one, it returns after [k + 1] exchanges when the limit allows
    more than [k] nested calls. When the first [depth] replies are all
    echoes, [depth] being the nested calls the limit allows, it ends in
    [RecursionError] after [depth] exchanges; so it does when every reply
    is an echo, whatever the limit. *)
Theorem update_current_source_round_trips o :
  (forall k depth : nat,
      (forall i, i < k -> echo_at o i = true) ->
      settled_at o k = true ->
      k < depth ->
      fst (update_current_source depth o) = Ret tt
      /\ trips (snd (update_current_source depth o)) = trips o + S k)
  /\ (forall depth : nat,
         (forall i, i < depth -> echo_at o i = true) ->
         fst (update_current_source depth o) = Raise RecursionError
         /\ trips (snd (update_current_source depth o)) = trips o + depth)
  /\ (forall depth : nat,
         (forall i, echo_at o i = true) ->
         fst (update_current_source depth o) = Raise RecursionError
         /\ trips (snd (update_current_source depth o)) = trips o + depth).
Proof.
  split; [|split].
  - intros k depth. apply ucs_after_echoes.
  - intros depth. apply ucs_echoes_exhaust.
  - intros depth. apply ucs_echoes_forever.
Qed.

(** ** Power and state move together *)

Lemma keeps_refl o : keeps_or_sets o o.
Proof. left. now split. Qed.

Lemma keeps_trans o o1 o2 :
  keeps_or_sets o o1 -> keeps_or_sets o1 o2 -> keeps_or_sets o o2.
Proof.
  unfold keeps_or_sets. intros H1 [[Hp Hs]|H2]; [|now right].
  rewrite Hp, Hs. exact H1.
Qed.

Lemma tracks_ret {A : Type} (a : A) : tracks (F := F) (ret a).
Proof. intros o. apply keeps_refl. Qed.

Lemma tracks_raise {A : Type} (e : exn) : tracks (F := F) (A := A) (raise e).
Proof. intros o. apply keeps_refl. Qed.

Lemma tracks_lift {A : Type} (r : Result A) : tracks (F := F) (lift r).
Proof. intros o. apply keeps_refl. Qed.

Lemma tracks_read {A : Type} (f : @MLCtrl F -> A) : tracks (read f).
Proof. intros o. apply keeps_refl. Qed.

Lemma tracks_bind {A B : Type} (m : @Py F A) (k : A -> @Py F B) :
  tracks m -> (forall a, tracks (k a)) -> tracks (bind m k).
Proof.
  intros Hm Hk o. unfold bind. specialize (Hm o).
  destruct (m o) as [[a|e] o1]; simpl in *; [|exact Hm].
  eapply keeps_trans; [exact Hm|apply Hk].
Qed.

Lemma tracks_try {A : Type} (body handler : @Py F A) (caught : exn -> bool) :
  tracks body -> tracks handler -> tracks (try_except body caught handler).
Proof.
  intros Hb Hh o. unfold try_except. specialize (Hb o).
  destruct (body o) as [[a|e] o1]; simpl in *; [exact Hb|].
  destruct (caught e); [|exact Hb].
  eapply keeps_trans; [exact Hb|apply Hh].
Qed.

Lemma tracks_assign (upd : @MLCtrl F -> @MLCtrl F) :
  (forall o, _power (upd o) = _power o /\ _state (upd o) = _state o) ->
  tracks (assign upd).
Proof. intros H o. left. apply H. Qed.

(** The two assignments of a power mode and of its state, taken together. *)
Lemma tracks_pair {A : Type} (p s : string) (k : @Py F A) :
  (p = POWER_ON /\ s = STATE_ON)
  \/ (p = POWER_STANDBY /\ s = STATE_OFF)
  \/ (p = POWER_OFF /\ s = STATE_OFF) ->
  tracks (F := F) k ->
  tracks (F := F) (assign (with_power (Some p)) ;;; (_ <- assign (with_state (Some s)) ;; k)).
Proof.
  intros Hps Hk o. unfold bind, assign. cbn [fst snd].
  eapply keeps_trans; [|apply Hk].
  right. simpl. destruct Hps as [[-> ->]|[[-> ->]|[-> ->]]]; auto.
Qed.

Lemma tracks_pair_end (p s : string) :
  (p = POWER_ON /\ s = STATE_ON)
  \/ (p = POWER_STANDBY /\ s = STATE_OFF)
  \/ (p = POWER_OFF /\ s = STATE_OFF) ->
  tracks (F := F) (assign (with_power (Some p)) ;;; assign (with_state (Some s))).
Proof.
  intros Hps o. unfold bind, assign. cbn [fst snd].
  right. simpl. destruct Hps as [[-> ->]|[[-> ->]|[-> ->]]]; auto.
Qed.

Lemma tracks_socket_send (payload : string) : tracks (F := F) (socket_send payload).
Proof.
  intros o. unfold socket_send.
  destruct (_socket o) as [sk|]; [|apply keeps_refl].
  destruct (peer sk (exchanges sk)); left; now split.
Qed.

Lemma tracks_socket_recv : tracks (F := F) socket_recv.
Proof.
  intros o. unfold socket_recv.
  destruct (_socket o) as [sk|]; [|apply keeps_refl].
  destruct (peer sk (exchanges sk)); left; now split.
Qed.

Create HintDb tracks.

#[local] Hint Resolve tracks_ret tracks_raise tracks_lift tracks_read
  tracks_socket_send tracks_socket_recv : tracks.

Ltac tracks_step :=
  match goal with
  | |- tracks (bind (assign (with_power _)) _) =>
      first [ apply tracks_pair_end; tauto | apply tracks_pair; [tauto|] ]
  | |- tracks (bind _ _) => apply tracks_bind; [|intro]
  | |- tracks (try_except _ _ _) => apply tracks_try
  | |- tracks (assign _) => apply tracks_assign; intro; split; reflexivity
  | |- tracks (if ?b then _ else _) => destruct b
  | |- tracks (match ?x with _ => _ end) => destruct x
  | |- tracks _ => solve [auto with tracks]
  end.

Lemma tracks_exec (command param : string) :
  tracks (F := F) (_exec_appcommand_post command param).
Proof. unfold _exec_appcommand_post. repeat tracks_step. Qed.

Lemma tracks_send_command (command param : string) :
  tracks (F := F) (send_command command param).
Proof. unfold send_command. repeat tracks_step. apply tracks_exec. Qed.

#[local] Hint Resolve tracks_send_command : tracks.

Lemma tracks_update_power_state : tracks (F := F) update_power_state.
Proof. unfold update_power_state. repeat tracks_step. Qed.

Lemma tracks_update_sources : tracks (F := F) update_sources.
Proof. unfold update_sources. repeat tracks_step. Qed.

Lemma tracks_update_current_source (depth : nat) :
  tracks (F := F) (update_current_source depth).
Proof.
  induction depth as [|n IH]; simpl.
  - apply tracks_raise.
  - repeat tracks_step.
Qed.

Lemma tracks_update_volume : tracks (F := F) update_volume.
Proof. unfold update_volume. repeat tracks_step. Qed.

Lemma tracks_update_mutestate : tracks (F := F) update_mutestate.
Proof. unfold update_mutestate. repeat tracks_step. Qed.

#[local] Hint Resolve tracks_update_power_state tracks_update_sources
  tracks_update_current_source tracks_update_volume tracks_update_mutestate
  : tracks.

Lemma tracks_update_all (depth : nat) : tracks (F := F) (update_all depth).
Proof. unfold update_all. repeat tracks_step. Qed.

Lemma tracks_power_on : tracks (F := F) power_on.
Proof. unfold power_on. repeat tracks_step. Qed.

Lemma tracks_power_off : tracks (F := F) power_off.
Proof. unfold power_off. repeat tracks_step. Qed.

Lemma tracks_sleep : tracks (F := F) sleep.
Proof. unfold sleep. repeat tracks_step. Qed.

Lemma tracks_set_volume (v : F) : tracks (F := F) (set_volume v).
Proof. unfold set_volume. repeat tracks_step. Qed.

#[local] Hint Resolve tracks_set_volume : tracks.

Lemma tracks_volume_up : tracks (F := F) volume_up.
Proof. unfold volume_up. repeat tracks_step. Qed.

Lemma tracks_volume_down : tracks (F := F) volume_down.
Proof. unfold volume_down. repeat tracks_step. Qed.

Lemma tracks_select_source (s : string) : tracks (F := F) (select_source s).
Proof. unfold select_source. repeat tracks_step. Qed.

Lemma tracks_mute (b : bool) : tracks (F := F) (mute b).
Proof. unfold mute. repeat tracks_step. Qed.

Lemma tracks_decode_message (message : string) : tracks (F := F) (decode_message message).
Proof. unfold decode_message. repeat tracks_step. Qed.

Lemma run_op_keeps (op : Op) o : keeps_or_sets o (snd (run_op op o)).
Proof.
  destruct op; simpl.
  - apply tracks_update_all.
  - apply tracks_update_power_state.
  - apply tracks_update_sources.
  - apply tracks_update_current_source.
  - apply tracks_update_volume.
  - apply tracks_update_mutestate.
  - apply tracks_power_on.
  - apply tracks_power_off.
  - apply tracks_sleep.
  - apply tracks_volume_up.
  - apply tracks_volume_down.
  - apply tracks_set_volume.
  - apply tracks_select_source.
  - apply tracks_mute.
  - apply tracks_send_command.
  - apply tracks_decode_message.
Qed.

Lemma follows_kept o o' :
  state_follows_power o -> keeps_or_sets o o' -> state_follows_power o'.
Proof.
  unfold state_follows_power, known_power.
  intros [Hk Hs] [[Hp Hs']|[[Hp Hs']|[[Hp Hs']|[Hp Hs']]]]; rewrite Hp, Hs'.
  - now split.
  - split; [tauto|reflexivity].
  - split; [tauto|reflexivity].
  - split; [tauto|reflexivity].
Qed.

(** Every public operation keeps the state a function of the power. *)
Lemma run_op_follows (op : Op) o :
  state_follows_power o -> state_follows_power (snd (run_op op o)).
Proof. intros H. eapply follows_kept; [exact H|apply run_op_keeps]. Qed.

Lemma run_ops_follows (ops : list Op) :
  forall o, state_follows_power o -> state_follows_power (run_ops ops o).
Proof.
  induction ops as [|op ops IH]; intros o H; simpl; [exact H|].
  apply IH. now apply run_op_follows.
Qed.

Lemma init_follows (net : Network) (depth : nat)
  (host : string) (port : Z) (name : option string) :
  state_follows_power (snd (__init__ net depth host port name)).
Proof.
  unfold __init__.
  match goal with |- state_follows_power (snd (?m ?o0)) =>
    apply (follows_kept o0); [|change (keeps_or_sets o0 (snd (m o0)))]
  end.
  - split; [left|]; reflexivity.
  - match goal with |- keeps_or_sets ?o0 (snd (?m ?o0)) =>
      cut (tracks m); [intros Ht; apply Ht|]
    end.
    repeat tracks_step. apply tracks_update_all.
Qed.

Lemma follows_reads o :
  state_follows_power o ->
  (state o = Some STATE_ON <-> power o = Some POWER_ON)
  /\ (power o = Some POWER_OFF \/ power o = Some POWER_STANDBY ->
      state o = Some STATE_OFF).
Proof.
  unfold state_follows_power, known_power, state, power.
  intros [Hk Hs]. rewrite Hs.
  destruct Hk as [-> | [-> | [-> | ->]]]; cbv;
    (split; [split; intros; congruence | intros [?|?]; congruence]).
Qed.

(** C8. On an object that [__init__] has set up, after any sequence of
    public operations, whether they returned or raised, the state is the
    function [derived_state] of the power: "on" exactly when the power is
    "ON", "off" when it is "OFF" or "STANDBY". *)
Theorem state_is_a_function_of_power
  (net : Network) (depth : nat) (host : string) (port : Z)
  (name : option string) (ops : list Op) :
  let o := run_ops ops (snd (__init__ net depth host port name)) in
  state o = derived_state (power o)
  /\ (state o = Some STATE_ON <-> power o = Some POWER_ON)
  /\ (power o = Some POWER_OFF \/ power o = Some POWER_STANDBY ->
      state o = Some STATE_OFF).
Proof.
  intros o.
  assert (H : state_follows_power o)
    by (apply run_ops_follows, init_follows).
  split; [apply H|now apply follows_reads].
Qed.

(** ** The volume property and its reader *)

(** C9. For every object the [volume] property is the string [str] of
    the cached float; dividing it by 100 raises [TypeError], and so does
    the platform's expression whenever that string is not empty (the
    expression yields 0.0 if it is). *)
Theorem volume_property_is_a_string o :
  volume o = PStr (float_str (_volume o))
  /\ py_truediv (volume o) (PInt 100) = Raise TypeError
  /\ MLAvrDevice_volume o
     = (if str_truthy (float_str (_volume o))
        then Raise TypeError
        else Ret (PFloat float_zero)).
Proof.
  split; [reflexivity|]. split; [reflexivity|].
  unfold MLAvrDevice_volume, volume. cbn [truthy].
  destruct (str_truthy (float_str (_volume o))); reflexivity.
Qed.

(** ** decode_message *)



(** ** Failures of the transport *)

(** C1 on the code. None of the failures of an exchange comes back as the
    value [False]: without a socket [_exec_appcommand_post] raises
    [AttributeError], a failing send or receive raises [OSError],
    undecodable bytes raise [UnicodeDecodeError]; the exception leaves
    [send_command] and the refresh that called it, and [__init__] itself
    when the host was unreachable. *)
Theorem transport_failures_are_raised o (command param : string) :
  _exec_appcommand_post command param (with_socket None o)
  = (Raise AttributeError, with_socket None o)
  /\ (forall (n : nat) (out : list string),
         fst (_exec_appcommand_post command param
                (with_socket (Some (mkSocket (fun _ => SendError) n out)) o))
         = Raise OSError)
  /\ (forall (n : nat) (out : list string),
         fst (_exec_appcommand_post command param
                (with_socket (Some (mkSocket (fun _ => RecvError) n out)) o))
         = Raise OSError)
  /\ (forall (n : nat) (out : list string),
         fst (_exec_appcommand_post command param
                (with_socket
                   (Some (mkSocket (fun _ => Data (String "255"%char EmptyString)) n out))
                   o))
         = Raise UnicodeDecodeError)
  /\ fst (send_command "HEARTBEAT" "" (with_socket None o)) = Raise AttributeError
  /\ fst (update_power_state (with_socket None o)) = Raise AttributeError
  /\ fst (run_op (Op_select_source param) (with_socket None o)) = Some AttributeError
  /\ (forall (e : ConnectFailure) (depth : nat) (host : string) (port : Z)
             (name : option string),
         fst (__init__ (F := F) (Unreachable e) depth host port name)
         = Raise AttributeError)
  /\ ((exists text, fst (_exec_appcommand_post command param o) = Ret (PStr text))
      \/ fst (_exec_appcommand_post command param o) = Raise AttributeError
      \/ fst (_exec_appcommand_post command param o) = Raise OSError
      \/ fst (_exec_appcommand_post command param o) = Raise UnicodeDecodeError).
Proof.
  split; [now apply exec_without_socket|].
  split; [reflexivity|]. split; [reflexivity|]. split; [reflexivity|].
  split; [reflexivity|]. split; [reflexivity|]. split; [reflexivity|].
  split; [intros [| |]; reflexivity|].
  unfold _exec_appcommand_post, try_except, bind, socket_send, socket_recv,
    lift, decode_utf8, ret.
  destruct (_socket o) as [sk|]; simpl; [|right; left; reflexivity].
  destruct (peer sk (exchanges sk)) eqn:E; simpl; rewrite ?E; simpl.
  - destruct (utf8_valid bytes); simpl.
    + left. eexists. reflexivity.
    + right; right; right. reflexivity.
  - right; right; left. reflexivity.
  - right; right; left. reflexivity.
Qed.

End Facts.

(** ** The code on concrete replies *)

Ltac delivered := exact (conj eq_refl eq_refl).

Lemma update_power_state_heartbeat_run :
  (let o := fresh (script [Data ("RSP:CS:PWR:ON" ++ CRLF)] RecvError) in
   power (snd (update_power_state o)) = Some "ON"
   /\ state (snd (update_power_state o)) = Some "on")
  /\ (let o := fresh (script [Data "RSP:CS:PWR:STANDBY"] RecvError) in
      power (snd (update_power_state o)) = Some "STANDBY"
      /\ state (snd (update_power_state o)) = Some "off")
  /\ (let o := fresh (script [Data "RSP:CS:PWR:OFF"] RecvError) in
      power (snd (update_power_state o)) = Some "OFF"
      /\ state (snd (update_power_state o)) = Some "off")
  /\ (let o := fresh (script [Data "RSP:CS:PWR:WARMUP"] RecvError) in
      fst (update_power_state o) = Ret tt
      /\ power (snd (update_power_state o)) = None
      /\ state (snd (update_power_state o)) = None).
Proof.
  split; [|split; [|split]]; intros o.
  - assert (Hd : delivers o ("RSP:CS:PWR:ON" ++ CRLF)) by delivered.
    destruct (update_power_state_maps_heartbeat o _ Hd) as (H & _).
    rewrite (H eq_refl). split; reflexivity.
  - assert (Hd : delivers o "RSP:CS:PWR:STANDBY") by delivered.
    destruct (update_power_state_maps_heartbeat o _ Hd) as (_ & H & _).
    rewrite (H eq_refl). split; reflexivity.
  - assert (Hd : delivers o "RSP:CS:PWR:OFF") by delivered.
    destruct (update_power_state_maps_heartbeat o _ Hd) as (_ & _ & H & _).
    rewrite (H eq_refl). split; reflexivity.
  - assert (Hd : delivers o "RSP:CS:PWR:WARMUP") by delivered.
    destruct (update_power_state_maps_heartbeat o _ Hd) as (_ & _ & _ & H).
    destruct H as (E & _); [discriminate|discriminate|discriminate|].
    rewrite E. repeat split.
Defined.

Lemma select_source_run :
  let o := fresh (script [Data "RSP:CS:ACT:NAK"] RecvError) in
  fst (select_source "JACK" o) = Ret true
  /\ current_source (snd (select_source "JACK" o)) = Some "JACK"
  /\ fst (select_source "TV" o) = Ret true
  /\ current_source (snd (select_source "TV" o)) = Some "TV".
Proof.
  intros o.
  assert (Hd : delivers o "RSP:CS:ACT:NAK") by delivered.
  destruct (select_source_is_optimistic o _ "JACK" Hd) as (E1 & _).
  destruct (select_source_is_optimistic o _ "TV" Hd) as (E2 & _).
  rewrite E1, E2. repeat split.
Defined.

Lemma set_volume_acknowledged_run :
  let o := fresh (script [Data "RSP:CS:VOL:ACK"] RecvError) in
  fst (set_volume (mkDec 425 1) o) = Ret true
  /\ _volume (snd (set_volume (mkDec 425 1) o)) = mkDec 425 1
  /\ volume (snd (set_volume (mkDec 425 1) o)) = PStr "42.5".
Proof.
  intros o.
  assert (Hd : delivers o "RSP:CS:VOL:ACK") by delivered.
  destruct (set_volume_stores_on_ack o _ (mkDec 425 1) Hd) as (E & _).
  rewrite E. repeat split.
Defined.

(** C3 fails as stated: the reply "RSP:CS:VOL:42.5" carries no "ACK", and
    after [set_volume 42.5] the cached volume is still -1.0. *)
Lemma set_volume_unacknowledged_keeps_volume :
  let o := fresh (script [Data "RSP:CS:VOL:42.5"] RecvError) in
  delivers o "RSP:CS:VOL:42.5"
  /\ fst (set_volume (mkDec 425 1) o) = Ret true
  /\ _volume (snd (set_volume (mkDec 425 1) o)) = mkDec (-1) 0
  /\ volume (snd (set_volume (mkDec 425 1) o)) = PStr "-1.0"
  /\ _volume (snd (set_volume (mkDec 425 1) o)) <> mkDec 425 1.
Proof.
  intros o. split; [delivered|]. repeat split. discriminate.
Qed.

Lemma update_sources_run :
  (let o := fresh (script [Data "RSP:CS:REQ_ACT_LIST:A,B,C"] RecvError) in
   sources (snd (update_sources o)) = ["A"; "B"; "C"])
  /\ (let o := with_sources ["TV"] (fresh (script [Data "RSP:CS:PWR:ON"] RecvError)) in
      sources (snd (update_sources o)) = ["TV"]).
Proof.
  split; intros o.
  - assert (Hd : delivers o "RSP:CS:REQ_ACT_LIST:A,B,C") by delivered.
    destruct (update_sources_takes_fourth_field o _ Hd) as (E & _).
    rewrite E. reflexivity.
  - assert (Hd : delivers o "RSP:CS:PWR:ON") by delivered.
    destruct (update_sources_takes_fourth_field o _ Hd) as (_ & H).
    rewrite (H eq_refl). reflexivity.
Defined.

(** C2 fails as stated: in "RSP:CS:REQ_ACT_LIST:NAMES:A,B,C" the fourth
    field is "NAMES", and that becomes the only source. *)
Lemma update_sources_names_reply :
  let o := fresh (script [Data "RSP:CS:REQ_ACT_LIST:NAMES:A,B,C"] RecvError) in
  delivers o "RSP:CS:REQ_ACT_LIST:NAMES:A,B,C"
  /\ fst (update_sources o) = Ret tt
  /\ sources (snd (update_sources o)) = ["NAMES"]
  /\ sources (snd (update_sources o)) <> ["A"; "B"; "C"].
Proof.
  intros o. split; [delivered|]. repeat split. discriminate.
Qed.

Lemma update_volume_run :
  (let o := fresh (script [Data "RSP:CS:VOL:23.5"] RecvError) in
   _volume (snd (update_volume o)) = mkDec 235 1)
  /\ (let o := with_volume (mkDec 10 0)
                 (fresh (script [Data "RSP:CS:VOL:garbage"] RecvError)) in
      _volume (snd (update_volume o)) = mkDec (-1) 0).
Proof.
  split; intros o.
  - assert (Hd : delivers o "RSP:CS:VOL:23.5") by delivered.
    destruct (update_volume_stores_parsed_field o _ Hd) as (E & _).
    rewrite E. reflexivity.
  - assert (Hd : delivers o "RSP:CS:VOL:garbage") by delivered.
    destruct (update_volume_stores_parsed_field o _ Hd) as (E & _).
    rewrite E. reflexivity.
Defined.

(** C6 fails as stated: the reply "RSP:CS:VOL:-5.0" leaves the cached
    volume at -5.0, which is below zero and is not -1.0. *)
Lemma update_volume_negative_reply :
  let o := fresh (script [Data "RSP:CS:VOL:-5.0"] RecvError) in
  delivers o "RSP:CS:VOL:-5.0"
  /\ fst (update_volume o) = Ret tt
  /\ _volume (snd (update_volume o)) = mkDec (-5) 0
  /\ float_leb float_zero (_volume (snd (update_volume o))) = false
  /\ _volume (snd (update_volume o)) <> float_minus_one.
Proof.
  intros o. split; [delivered|]. repeat split. discriminate.
Qed.

Lemma update_current_source_run :
  (fst (update_current_source 10 two_echoes) = Ret tt
   /\ trips (snd (update_current_source 10 two_echoes)) = trips two_echoes + 3)
  /\ (fst (update_current_source 2 two_echoes) = Raise RecursionError
      /\ trips (snd (update_current_source 2 two_echoes)) = trips two_echoes + 2)
  /\ (fst (update_current_source 25 only_echoes) = Raise RecursionError
      /\ trips (snd (update_current_source 25 only_echoes)) = trips only_echoes + 25).
Proof.
  assert (H2 : forall i, i < 2 -> echo_at two_echoes i = true).
  { intros [|[|i]] Hi; [reflexivity|reflexivity|].
    exfalso. exact (Nat.nlt_0_r i (proj2 (Nat.succ_lt_mono _ _)
                                     (proj2 (Nat.succ_lt_mono _ _) Hi))). }
  split; [|split].
  - apply (proj1 (update_current_source_round_trips two_echoes) 2 10).
    + exact H2.
    + reflexivity.
    + repeat constructor.
  - apply (proj1 (proj2 (update_current_source_round_trips two_echoes)) 2).
    exact H2.
  - apply (proj2 (proj2 (update_current_source_round_trips only_echoes)) 25).
    intros i. reflexivity.
Defined.

(** C4 fails as stated: answered with two echoes the method makes three
    exchanges, and answered with echoes only it goes on to the recursion
    limit (here 1000 nested calls) and raises. *)
Lemma update_current_source_third_trip :
  trips two_echoes = 0
  /\ fst (update_current_source 10 two_echoes) = Ret tt
  /\ trips (snd (update_current_source 10 two_echoes)) = 3
  /\ current_source (snd (update_current_source 10 two_echoes)) = Some "TV"
  /\ fst (update_current_source 1000 only_echoes) = Raise RecursionError
  /\ trips (snd (update_current_source 1000 only_echoes)) = 1000.
Proof.
  vm_compute. repeat split.
Qed.


(** The decoder on messages of one to five fields. *)
Example decode_message_samples :
  map failing_read ["RSP"; "RSP:CS"; "RSP:CS:PWR"; "RSP:CS:PWR:ON"; "RSP:CS:PWR:ON:x"; ""]
  = [Some FieldSource; Some FieldCommand; Some FieldParam; None; None; Some FieldSource]
  /\ map (fun m => fst (decode_message m unconnected))
       ["RSP:CS:PWR"; "RSP:CS:PWR:ON"; ""]
     = [Raise IndexError; Ret PNone; Raise IndexError].
Proof. split; reflexivity. Qed.

(** The volume of an object before its first refresh, and what the
    platform's expression makes of it. *)
Example volume_of_new_object :
  volume unconnected = PStr "-1.0"
  /\ MLAvrDevice_volume unconnected = Raise TypeError.
Proof. split; reflexivity. Qed.

(** Had the property been the float, the platform's division would go
    through. *)
Example division_of_a_float :
  py_truediv (PFloat (mkDec 425 1)) (PInt 100) = Ret (PFloat (mkDec 425 3)).
Proof. vm_compute. reflexivity. Qed.

(** The failing input of C1: an object whose connect failed. *)
Example heartbeat_without_connection :
  _get_new_socket (Unreachable gaierror) = None
  /\ fst (send_command "HEARTBEAT" "" unconnected) = Raise AttributeError
  /\ fst (update_all 10 unconnected) = Raise AttributeError
  /\ fst (@__init__ Dec _ (Unreachable gaierror) 10 "avr.local" 15003 None)
     = Raise AttributeError.
Proof. repeat split. Qed.

(** * Further facts *)

(** ** What a method leaves alone *)

Section Frame.

Context {F : Type} {FL : PyFloat F} {B : Type}.

Variable f : @MLCtrl F -> B.

Hypothesis f_socket : forall s o, f (with_socket s o) = f o.

Lemma keeps_ret {A : Type} (a : A) : keeps f (ret a).
Proof. intros o. reflexivity. Qed.

Lemma keeps_raise {A : Type} (e : exn) : keeps (A := A) f (raise e).
Proof. intros o. reflexivity. Qed.

Lemma keeps_lift {A : Type} (r : Result A) : keeps f (lift r).
Proof. intros o. reflexivity. Qed.

Lemma keeps_read {A : Type} (g : @MLCtrl F -> A) : keeps f (read g).
Proof. intros o. reflexivity. Qed.

Lemma keeps_bind {A C : Type} (m : @Py F A) (k : A -> @Py F C) :
  keeps f m -> (forall a, keeps f (k a)) -> keeps f (bind m k).
Proof.
  intros Hm Hk o. unfold bind. specialize (Hm o).
  destruct (m o) as [[a|e] o1]; simpl in *; [|exact Hm].
  rewrite Hk. exact Hm.
Qed.

Lemma keeps_try {A : Type} (body handler : @Py F A) (caught : exn -> bool) :
  keeps f body -> keeps f handler -> keeps f (try_except body caught handler).
Proof.
  intros Hb Hh o. unfold try_except. specialize (Hb o).
  destruct (body o) as [[a|e] o1]; simpl in *; [exact Hb|].
  destruct (caught e); [|exact Hb].
  rewrite Hh. exact Hb.
Qed.

Lemma keeps_assign (upd : @MLCtrl F -> @MLCtrl F) :
  (forall o, f (upd o) = f o) -> keeps f (assign upd).
Proof. intros H o. apply H. Qed.

Lemma keeps_socket_send (payload : string) : keeps f (socket_send payload).
Proof.
  intros o. unfold socket_send.
  destruct (_socket o) as [sk|]; [|reflexivity].
  destruct (peer sk (exchanges sk)); apply f_socket.
Qed.

Lemma keeps_socket_recv : keeps f socket_recv.
Proof.
  intros o. unfold socket_recv.
  destruct (_socket o) as [sk|]; [|reflexivity].
  destruct (peer sk (exchanges sk)); apply f_socket.
Qed.

Ltac keeps_step :=
  match goal with
  | |- keeps _ (bind _ _) => apply keeps_bind; [|intro]
  | |- keeps _ (try_except _ _ _) => apply keeps_try
  | |- keeps _ (ret _) => apply keeps_ret
  | |- keeps _ (raise _) => apply keeps_raise
  | |- keeps _ (lift _) => apply keeps_lift
  | |- keeps _ (read _) => apply keeps_read
  | |- keeps _ (socket_send _) => apply keeps_socket_send
  | |- keeps _ socket_recv => apply keeps_socket_recv
  | |- keeps _ (assign _) => apply keeps_assign; assumption
  | |- keeps _ (if ?b then _ else _) => destruct b
  | |- keeps _ (match ?x with _ => _ end) => destruct x
  | |- keeps _ _ => assumption
  end.

Lemma keeps_exec (command param : string) :
  keeps f (_exec_appcommand_post command param).
Proof. unfold _exec_appcommand_post. repeat keeps_step. Qed.

Lemma keeps_send_command (command param : string) :
  keeps f (send_command command param).
Proof. unfold send_command. repeat keeps_step. apply keeps_exec. Qed.

Lemma keeps_sleep : keeps f sleep.
Proof. unfold sleep. repeat keeps_step. apply keeps_send_command. Qed.

Lemma keeps_decode_message (message : string) : keeps f (decode_message message).
Proof. unfold decode_message. repeat keeps_step. Qed.

Lemma keeps_update_sources :
  (forall v o, f (with_sources v o) = f o) -> keeps f update_sources.
Proof.
  intros H. pose proof keeps_send_command as Hs.
  unfold update_sources. repeat keeps_step; try apply Hs.
  apply keeps_assign. intro. apply H.
Qed.

Lemma keeps_update_current_source (depth : nat) :
  (forall v o, f (with_current_source v o) = f o) ->
  keeps f (update_current_source depth).
Proof.
  intros H. pose proof keeps_send_command as Hs.
  induction depth as [|n IH]; simpl; [apply keeps_raise|].
  repeat keeps_step; try apply Hs.
  apply keeps_assign. intro. apply H.
Qed.

Lemma keeps_update_mutestate :
  (forall v o, f (with_mute v o) = f o) -> keeps f update_mutestate.
Proof.
  intros H. pose proof keeps_send_command as Hs.
  unfold update_mutestate. repeat keeps_step; try apply Hs.
  apply keeps_assign. intro. apply H.
Qed.

Lemma keeps_mute (b : bool) :
  (forall v o, f (with_mute v o) = f o) -> keeps f (mute b).
Proof.
  intros H. pose proof keeps_send_command as Hs.
  unfold mute. repeat keeps_step; try apply Hs;
    apply keeps_assign; intro; apply H.
Qed.

Lemma keeps_select_source (s : string) :
  (forall v o, f (with_current_source v o) = f o) -> keeps f (select_source s).
Proof.
  intros H. pose proof keeps_send_command as Hs.
  unfold select_source. repeat keeps_step; try apply Hs;
    apply keeps_assign; intro; apply H.
Qed.

Lemma keeps_update_volume :
  (forall v o, f (with_volume v o) = f o) -> keeps f update_volume.
Proof.
  intros H. pose proof keeps_send_command as Hs.
  unfold update_volume. repeat keeps_step; try apply Hs;
    apply keeps_assign; intro; apply H.
Qed.

Lemma keeps_set_volume (v : F) :
  (forall v o, f (with_volume v o) = f o) -> keeps f (set_volume v).
Proof.
  intros H. pose proof keeps_send_command as Hs.
  unfold set_volume. repeat keeps_step; try apply Hs;
    apply keeps_assign; intro; apply H.
Qed.

Lemma keeps_volume_up :
  (forall v o, f (with_volume v o) = f o) -> keeps f volume_up.
Proof.
  intros H. unfold volume_up. repeat keeps_step. now apply keeps_set_volume.
Qed.

Lemma keeps_volume_down :
  (forall v o, f (with_volume v o) = f o) -> keeps f volume_down.
Proof.
  intros H. unfold volume_down. repeat keeps_step. now apply keeps_set_volume.
Qed.

Section PowerUntouched.

Hypothesis f_power : forall v o, f (with_power v o) = f o.
Hypothesis f_state : forall v o, f (with_state v o) = f o.

Lemma keeps_update_power_state : keeps f update_power_state.
Proof.
  pose proof keeps_send_command as Hs.
  unfold update_power_state. repeat keeps_step; try apply Hs;
    apply keeps_assign; intro; first [apply f_power | apply f_state].
Qed.

Lemma keeps_power_on : keeps f power_on.
Proof.
  pose proof keeps_send_command as Hs.
  unfold power_on. repeat keeps_step; try apply Hs;
    apply keeps_assign; intro; first [apply f_power | apply f_state].
Qed.

Lemma keeps_power_off : keeps f power_off.
Proof.
  pose proof keeps_send_command as Hs.
  unfold power_off. repeat keeps_step; try apply Hs;
    apply keeps_assign; intro; first [apply f_power | apply f_state].
Qed.

End PowerUntouched.

End Frame.

Ltac quiet_step :=
  match goal with
  | |- keeps _ (bind _ _) => apply keeps_bind; [|intro]
  | |- keeps _ (try_except _ _ _) => apply keeps_try
  | |- keeps _ (ret _) => apply keeps_ret
  | |- keeps _ (raise _) => apply keeps_raise
  | |- keeps _ (lift _) => apply keeps_lift
  | |- keeps _ (read _) => apply keeps_read
  | |- keeps _ (assign _) => apply keeps_assign; intro; reflexivity
  | |- keeps _ (if ?b then _ else _) => destruct b
  | |- keeps _ (match ?x with _ => _ end) => destruct x
  end.

(** ** Fields that no operation assigns *)

Section Untouched.

Context {F : Type} {FL : PyFloat F} {B : Type}.

Variable f : @MLCtrl F -> B.

Hypothesis f_socket : forall s o, f (with_socket s o) = f o.
Hypothesis f_power : forall v o, f (with_power v o) = f o.
Hypothesis f_state : forall v o, f (with_state v o) = f o.
Hypothesis f_sources : forall v o, f (with_sources v o) = f o.
Hypothesis f_current_source : forall v o, f (with_current_source v o) = f o.
Hypothesis f_volume : forall v o, f (with_volume v o) = f o.
Hypothesis f_mute : forall v o, f (with_mute v o) = f o.

Lemma untouched_update_all (depth : nat) : keeps f (update_all depth).
Proof.
  unfold update_all.
  repeat (apply keeps_bind; [|intro]).
  - now apply keeps_update_power_state.
  - now apply keeps_update_volume.
  - now apply keeps_update_mutestate.
  - apply keeps_read.
  - destruct (opt_eqb a2 POWER_ON); [|apply keeps_ret].
    apply keeps_bind; [|intro].
    + now apply keeps_update_current_source.
    + now apply keeps_update_sources.
Qed.

Lemma untouched_run_op (op : Op) o : f (snd (run_op op o)) = f o.
Proof.
  destruct op; simpl.
  - now apply untouched_update_all.
  - now apply keeps_update_power_state.
  - now apply keeps_update_sources.
  - now apply keeps_update_current_source.
  - now apply keeps_update_volume.
  - now apply keeps_update_mutestate.
  - now apply keeps_power_on.
  - now apply keeps_power_off.
  - now apply keeps_sleep.
  - now apply keeps_volume_up.
  - now apply keeps_volume_down.
  - now apply keeps_set_volume.
  - now apply keeps_select_source.
  - now apply keeps_mute.
  - now apply keeps_send_command.
  - now apply keeps_decode_message.
Qed.

Lemma untouched_run_ops (ops : list Op) : forall o, f (run_ops ops o) = f o.
Proof.
  induction ops as [|op ops IH]; intros o; simpl; [reflexivity|].
  rewrite IH. apply untouched_run_op.
Qed.

Lemma untouched_init (net : Network) (depth : nat)
  (host : string) (port : Z) (name : option string) :
  f (snd (__init__ net depth host port name))
  = f (mkMLCtrl name host port "Main Zone" STATE_OFF float_minus_one
         None None None DEFAULT_SOURCES None).
Proof.
  unfold __init__.
  match goal with |- f (snd (?m ?o0)) = _ =>
    cut (keeps f m); [intros H; apply H|]
  end.
  apply keeps_bind; [apply keeps_assign; intro; apply f_socket|intro].
  apply keeps_bind; [apply untouched_update_all|intro].
  repeat quiet_step.
Qed.

End Untouched.

Section MoreFacts.

Context {F : Type} {FL : PyFloat F}.

Implicit Types (o : @MLCtrl F) (d : string).

(** X8. The identification of an object never changes: after [__init__]
    and any sequence of public operations, name, host and port are the
    constructor's arguments and the zone is "Main Zone". *)
Theorem identification_is_immutable
  (net : Network) (depth : nat) (host_ : string) (port_ : Z)
  (name_ : option string) (ops : list Op) :
  let o := run_ops ops (snd (__init__ (F := F) net depth host_ port_ name_)) in
  name o = name_ /\ host o = host_ /\ port o = port_ /\ zone o = "Main Zone".
Proof.
  intros o. unfold o, name, host, port, zone.
  repeat split.
  - rewrite (untouched_run_ops _name), (untouched_init _name); reflexivity.
  - rewrite (untouched_run_ops _host), (untouched_init _host); reflexivity.
  - rewrite (untouched_run_ops _port), (untouched_init _port); reflexivity.
  - rewrite (untouched_run_ops _zone), (untouched_init _zone); reflexivity.
Qed.

(** X9. An operation changes only the cached fields it is listed for in
    [may_write]: every other one among sources, current source, volume,
    mute and power/state has the same value after the operation as
    before, whether the operation returned or raised. *)
Theorem operation_writes_only_its_fields (op : Op) (c : Cached) o :
  may_write op c = false ->
  same_cached c o (snd (run_op op o)).
Proof.
  destruct op, c; simpl; try discriminate; intros _; try split;
    first
      [ apply keeps_update_power_state
      | apply keeps_update_sources
      | apply keeps_update_current_source
      | apply keeps_update_volume
      | apply keeps_update_mutestate
      | apply keeps_power_on
      | apply keeps_power_off
      | apply keeps_sleep
      | apply keeps_volume_up
      | apply keeps_volume_down
      | apply keeps_set_volume
      | apply keeps_select_source
      | apply keeps_mute
      | apply keeps_send_command
      | apply keeps_decode_message ];
    intros; reflexivity.
Qed.

(** ** Exchanges per operation *)

Lemma advances_quiet {A : Type} (n : nat) (m : @Py F A) :
  keeps trips m -> advances n m.
Proof. intros H o. rewrite H. lia. Qed.

Lemma advances_weaken {A : Type} (n n' : nat) (m : @Py F A) :
  advances n m -> n <= n' -> advances n' m.
Proof. intros H Hn o. specialize (H o). lia. Qed.

Lemma advances_bind {A B : Type} (n1 n2 : nat) (m : @Py F A) (k : A -> @Py F B) :
  advances n1 m -> (forall a, advances n2 (k a)) -> advances (n1 + n2) (bind m k).
Proof.
  intros Hm Hk o. unfold bind. specialize (Hm o).
  destruct (m o) as [[a|e] o1]; simpl in *; [|lia].
  specialize (Hk a o1). lia.
Qed.

Lemma advances_try {A : Type} (n : nat) (body handler : @Py F A)
  (caught : exn -> bool) :
  advances n body -> keeps trips handler ->
  advances n (try_except body caught handler).
Proof.
  intros Hb Hh o. unfold try_except. specialize (Hb o).
  destruct (body o) as [[a|e] o1]; simpl in *; [exact Hb|].
  destruct (caught e); [|exact Hb].
  rewrite Hh. exact Hb.
Qed.

(** One call of the transport is at most one exchange: a failed send
    ends it, a completed send is followed by the one receive. *)
Lemma advances_exec (command param : string) :
  advances (F := F) 1 (_exec_appcommand_post command param).
Proof.
  intros o.
  unfold _exec_appcommand_post, try_except, bind, socket_send, socket_recv,
    lift, decode_utf8, ret, trips.
  destruct (_socket o) as [sk|] eqn:E; simpl; [|rewrite E; lia].
  destruct (peer sk (exchanges sk)) eqn:Ep; simpl; rewrite ?Ep; simpl; try lia.
  destruct (utf8_valid bytes); simpl; lia.
Qed.

Lemma advances_send_command (command param : string) :
  advances (F := F) 1 (send_command command param).
Proof.
  unfold send_command.
  apply (advances_bind 0 1); [|intro; apply advances_exec].
  apply advances_quiet, keeps_lift.
Qed.

Lemma advances_send_then {A : Type} (n : nat) (command param : string)
  (k : @PyVal F -> @Py F A) :
  (forall a, advances n (k a)) ->
  advances (S n) (bind (send_command command param) k).
Proof.
  intros Hk. apply (advances_bind 1 n); [apply advances_send_command|exact Hk].
Qed.

Lemma advances_quiet_then {A B : Type} (n : nat) (m : @Py F A) (k : A -> @Py F B) :
  keeps trips m -> (forall a, advances n (k a)) -> advances n (bind m k).
Proof.
  intros Hm Hk. apply (advances_bind 0 n); [now apply advances_quiet|exact Hk].
Qed.

Ltac adv_step :=
  match goal with
  | |- advances _ (try_except _ _ _) =>
      apply advances_try; [|solve [repeat quiet_step]]
  | |- advances _ (bind (send_command _ _) _) => apply advances_send_then; intro
  | |- advances _ (bind _ _) =>
      apply advances_quiet_then; [solve [repeat quiet_step]|intro]
  | |- advances _ (if ?b then _ else _) => destruct b
  | |- advances _ (match ?x with _ => _ end) => destruct x
  | |- advances _ _ => assumption
  | |- advances _ _ => apply advances_quiet; solve [repeat quiet_step]
  end.

Lemma advances_update_power_state : advances (F := F) 1 update_power_state.
Proof. unfold update_power_state. repeat adv_step. Qed.

Lemma advances_update_sources : advances (F := F) 1 update_sources.
Proof. unfold update_sources. repeat adv_step. Qed.

Lemma advances_update_current_source (depth : nat) :
  advances (F := F) depth (update_current_source depth).
Proof.
  induction depth as [|n IH]; simpl.
  - apply advances_quiet, keeps_raise.
  - repeat adv_step.
Qed.

Lemma advances_update_volume : advances (F := F) 1 update_volume.
Proof. unfold update_volume. repeat adv_step. Qed.

Lemma advances_update_mutestate : advances (F := F) 1 update_mutestate.
Proof. unfold update_mutestate. repeat adv_step. Qed.

Lemma advances_power_on : advances (F := F) 1 power_on.
Proof. unfold power_on. repeat adv_step. Qed.

Lemma advances_power_off : advances (F := F) 1 power_off.
Proof. unfold power_off. repeat adv_step. Qed.

Lemma advances_sleep : advances (F := F) 1 sleep.
Proof. unfold sleep. repeat adv_step. Qed.

Lemma advances_set_volume (v : F) : advances (F := F) 1 (set_volume v).
Proof. unfold set_volume. repeat adv_step. Qed.

Lemma advances_volume_up : advances (F := F) 1 volume_up.
Proof.
  unfold volume_up. repeat adv_step.
  apply (advances_bind 1 0); [apply advances_set_volume|intro].
  apply advances_quiet, keeps_ret.
Qed.

Lemma advances_volume_down : advances (F := F) 1 volume_down.
Proof.
  unfold volume_down. repeat adv_step.
  apply (advances_bind 1 0); [apply advances_set_volume|intro].
  apply advances_quiet, keeps_ret.
Qed.

Lemma advances_select_source (s : string) : advances (F := F) 1 (select_source s).
Proof. unfold select_source. repeat adv_step. Qed.

Lemma advances_mute (b : bool) : advances (F := F) 1 (mute b).
Proof. unfold mute. repeat adv_step. Qed.

Lemma advances_decode_message (message : string) :
  advances (F := F) 0 (decode_message (F := F) message).
Proof. apply advances_quiet. unfold decode_message. repeat quiet_step. Qed.

Lemma advances_update_all (depth : nat) : advances (F := F) (4 + depth) (update_all depth).
Proof.
  unfold update_all.
  apply advances_weaken with (n := 1 + (1 + (1 + (0 + (depth + 1))))); [|lia].
  apply advances_bind; [apply advances_update_power_state|intro].
  apply advances_bind; [apply advances_update_volume|intro].
  apply advances_bind; [apply advances_update_mutestate|intro].
  apply advances_bind; [apply advances_quiet, keeps_read|intro].
  destruct (opt_eqb a2 POWER_ON).
  - apply advances_bind; [apply advances_update_current_source|intro].
    apply advances_update_sources.
  - apply advances_quiet, keeps_ret.
Qed.

(** X7. No operation attempts more exchanges than its budget: none for
    [decode_message], at most one for each refresh and command, at most
    [depth] for [update_current_source] and [4 + depth] for [update_all];
    and the count of exchanges on the socket never goes down. *)
Theorem operation_stays_within_budget (op : Op) o :
  trips o <= trips (snd (run_op op o))
  /\ trips (snd (run_op op o)) <= trips o + budget op.
Proof.
  destruct op; simpl.
  - apply advances_update_all.
  - apply advances_update_power_state.
  - apply advances_update_sources.
  - apply advances_update_current_source.
  - apply advances_update_volume.
  - apply advances_update_mutestate.
  - apply advances_power_on.
  - apply advances_power_off.
  - apply advances_sleep.
  - apply advances_volume_up.
  - apply advances_volume_down.
  - apply advances_set_volume.
  - apply advances_select_source.
  - apply advances_mute.
  - apply advances_send_command.
  - apply advances_decode_message.
Qed.

(** ** send_command *)

Lemma dict_getitem_unknown {V : Type} (dict : list (string * V)) (key : string) :
  existsb (String.eqb key) (map fst dict) = false ->
  dict_getitem dict key = Raise KeyError.
Proof.
  induction dict as [|[k v] dict IH]; simpl; [reflexivity|].
  intros H. apply orb_false_iff in H as [Hk Hr].
  rewrite String.eqb_sym, Hk. now apply IH.
Qed.

Lemma dict_getitem_known {V : Type} (dict : list (string * V)) (key : string) :
  existsb (String.eqb key) (map fst dict) = true ->
  exists v, In (key, v) dict /\ dict_getitem dict key = Ret v.
Proof.
  induction dict as [|[k v] dict IH]; simpl; [discriminate|].
  intros H. destruct (String.eqb k key) eqn:E.
  - apply String.eqb_eq in E; subst k. exists v. split; [now left|reflexivity].
  - rewrite String.eqb_sym, E in H. simpl in H.
    destruct (IH H) as (v' & Hin & Hg). exists v'. split; [now right|exact Hg].
Qed.

(** X1. [send_command] with a name that is not a key of [COMMAND_MAPPING]
    raises [KeyError] before anything is sent and leaves the object as it
    was; with a key it is the transport call on the mapped wire prefix. *)
Theorem send_command_looks_up_the_table o (command param : string) :
  (known_command command = false ->
   send_command command param o = (Raise KeyError, o))
  /\ (known_command command = true ->
      exists comm, In (command, comm) COMMAND_MAPPING
                   /\ send_command command param o
                      = _exec_appcommand_post comm param o).
Proof.
  unfold known_command, send_command, bind, lift. split; intros H.
  - now rewrite (dict_getitem_unknown _ _ H).
  - destruct (dict_getitem_known _ _ H) as (comm & Hin & Hg).
    exists comm. split; [exact Hin|]. now rewrite Hg.
Qed.

Lemma count_remove_same (c : ascii) (s : string) :
  count_char c (remove_char c s) = 0.
Proof.
  induction s as [|a s IH]; simpl; [reflexivity|].
  destruct (Ascii.eqb a c) eqn:E; simpl; [exact IH|]. now rewrite E.
Qed.

Lemma count_remove_other (c c' : ascii) (s : string) :
  count_char c (remove_char c' s) <= count_char c s.
Proof.
  induction s as [|a s IH]; simpl; [lia|].
  destruct (Ascii.eqb a c'); simpl; lia.
Qed.

Lemma exec_never_RequestException o (command param : string) (e : exn) :
  fst (_exec_appcommand_post command param o) = Raise e ->
  is_RequestException e = false.
Proof.
  unfold _exec_appcommand_post, try_except.
  match goal with |- context [match ?b with _ => _ end] => destruct b as [[u|e'] o'] end;
    simpl; [discriminate|].
  destruct (is_RequestException e') eqn:E; simpl; [discriminate|].
  intros [= <-]. exact E.
Qed.

Lemma send_never_RequestException o (command param : string) (e : exn) :
  fst (send_command command param o) = Raise e ->
  is_RequestException e = false.
Proof.
  unfold send_command, bind, lift.
  destruct (dict_getitem COMMAND_MAPPING command) as [comm|e'] eqn:Ed.
  - apply exec_never_RequestException.
  - simpl. intros [= <-].
    clear - Ed. revert Ed. generalize COMMAND_MAPPING.
    induction l as [|[k v] l IH]; simpl.
    + intros [= <-]. reflexivity.
    + destruct (String.eqb k command); [discriminate|exact IH].
Qed.

(** X2. Whatever [send_command] returns is a string, and that string
    contains neither a carriage return nor a newline. *)
Theorem send_command_returns_one_line o (command param : string) (v : PyVal) :
  fst (send_command command param o) = Ret v ->
  exists text, v = PStr text
               /\ count_char CR text = 0 /\ count_char LF text = 0.
Proof.
  unfold send_command, bind, lift.
  destruct (dict_getitem COMMAND_MAPPING command) as [comm|e']; [|discriminate].
  unfold _exec_appcommand_post, try_except, bind, socket_send, socket_recv,
    lift, decode_utf8, ret.
  destruct (_socket o) as [sk|]; simpl; [|discriminate].
  destruct (peer sk (exchanges sk)) eqn:E; simpl; rewrite ?E; simpl;
    try discriminate.
  destruct (utf8_valid bytes); simpl; [|discriminate].
  intros [= <-]. eexists. split; [reflexivity|]. split.
  - pose proof (count_remove_other CR LF (remove_char CR bytes)) as H.
    rewrite count_remove_same in H. lia.
  - apply count_remove_same.
Qed.

(** ** Mute *)

(** X3. On a delivered reply containing the marker "RSP:CS:MUTE:",
    [update_mutestate] stores the fourth colon-separated field as it
    stands, so that [muted] then holds exactly when that field is the
    lower-case "on"; on any other reply the mute state is kept. *)
Theorem update_mutestate_takes_fourth_field o d :
  delivers o d ->
  let r := reply_text d in
  let o1 := exchanged (wire "RQST:CS:MUTE:" "?") o in
  update_mutestate o
  = (Ret tt,
     if str_in "RSP:CS:MUTE:" r
     then with_mute (nth 3 (split COLON r) EmptyString) o1
     else o1)
  /\ muted (snd (update_mutestate o))
     = (if str_in "RSP:CS:MUTE:" r
        then String.eqb (nth 3 (split COLON r) EmptyString) "on"
        else muted o).
Proof.
  intros Hd r o1.
  assert (Hs : send_command "MUTE_TOGGLE" "?" o = (Ret (PStr r), o1))
    by (now apply send_delivers).
  assert (E : update_mutestate o
              = (Ret tt,
                 if str_in "RSP:CS:MUTE:" r
                 then with_mute (nth 3 (split COLON r) EmptyString) o1
                 else o1)).
  { unfold update_mutestate, try_except, bind. rewrite Hs.
    destruct r as [|a r']; [reflexivity|].
    cbn [truthy str_truthy lift py_in py_split].
    destruct (str_in "RSP:CS:MUTE:" (String a r')) eqn:Hm; [|reflexivity].
    rewrite (marked_has_field "RSP:CS:MUTE:" _ (le_n 3) Hm). reflexivity. }
  split; [exact E|]. rewrite E.
  destruct (str_in "RSP:CS:MUTE:" r); [reflexivity|]. simpl.
  unfold o1, exchanged, muted. now destruct (_socket o).
Qed.

(** X4. [mute b] either returns True with [muted] equal to [b], or raises
    and leaves the mute state as it was; it returns neither False nor
    None. *)
Theorem mute_sets_or_raises o (b : bool) :
  (fst (mute b o) = Ret (PBool true)
   /\ muted (snd (mute b o)) = b
   /\ _mute (snd (mute b o)) = (if b then STATE_ON else STATE_OFF))
  \/ (exists e, fst (mute b o) = Raise e
                /\ _mute (snd (mute b o)) = _mute o).
Proof.
  unfold mute. destruct b; cbn [negb]; unfold try_except, bind.
  - pose proof (send_never_RequestException o "MUTE_TOGGLE" "ON") as Hn.
    pose proof (keeps_send_command _mute (fun _ _ => eq_refl) "MUTE_TOGGLE" "ON" o) as Hk.
    destruct (send_command "MUTE_TOGGLE" "ON" o) as [[v|e] o1]; simpl in *.
    + left. repeat split.
    + right. rewrite (Hn e eq_refl). exists e. now split.
  - pose proof (send_never_RequestException o "MUTE_TOGGLE" "OFF") as Hn.
    pose proof (keeps_send_command _mute (fun _ _ => eq_refl) "MUTE_TOGGLE" "OFF" o) as Hk.
    destruct (send_command "MUTE_TOGGLE" "OFF" o) as [[v|e] o1]; simpl in *.
    + left. repeat split.
    + right. rewrite (Hn e eq_refl). exists e. now split.
Qed.

(** ** Power commands *)

(** X5. [power_on] either returns True with power "ON" and state "on", so
    that [is_on] holds and [is_off] does not, or raises and leaves power
    and state as they were; [power_off] likewise with power "OFF" and
    state "off". Neither returns False. *)
Theorem power_commands_set_or_raise o :
  ((fst (power_on o) = Ret true
    /\ power (snd (power_on o)) = Some POWER_ON
    /\ state (snd (power_on o)) = Some STATE_ON
    /\ is_on (snd (power_on o)) = true
    /\ is_off (snd (power_on o)) = false)
   \/ (exists e, fst (power_on o) = Raise e
                 /\ power (snd (power_on o)) = power o
                 /\ state (snd (power_on o)) = state o))
  /\ ((fst (power_off o) = Ret true
       /\ power (snd (power_off o)) = Some POWER_OFF
       /\ state (snd (power_off o)) = Some STATE_OFF
       /\ is_off (snd (power_off o)) = true
       /\ is_on (snd (power_off o)) = false)
      \/ (exists e, fst (power_off o) = Raise e
                    /\ power (snd (power_off o)) = power o
                    /\ state (snd (power_off o)) = state o)).
Proof.
  split.
  - unfold power_on, try_except, bind, power, state.
    pose proof (send_never_RequestException o "POWER_ON" "") as Hn.
    pose proof (keeps_send_command _power (fun _ _ => eq_refl) "POWER_ON" "" o) as Hp.
    pose proof (keeps_send_command _state (fun _ _ => eq_refl) "POWER_ON" "" o) as Hs.
    destruct (send_command "POWER_ON" "" o) as [[v|e] o1]; simpl in *.
    + left. repeat split.
    + right. rewrite (Hn e eq_refl). exists e. now repeat split.
  - unfold power_off, try_except, bind, power, state.
    pose proof (send_never_RequestException o "POWER_OFF" "") as Hn.
    pose proof (keeps_send_command _power (fun _ _ => eq_refl) "POWER_OFF" "" o) as Hp.
    pose proof (keeps_send_command _state (fun _ _ => eq_refl) "POWER_OFF" "" o) as Hs.
    destruct (send_command "POWER_OFF" "" o) as [[v|e] o1]; simpl in *.
    + left. repeat split.
    + right. rewrite (Hn e eq_refl). exists e. now repeat split.
Qed.

(** ** Volume steps *)

Lemma set_volume_delivered o d (v : F) :
  delivers o d ->
  set_volume v o
  = (Ret true,
     if str_in "ACK" (reply_text d)
     then with_volume v (exchanged (wire "RQST:CS:VOL:" (float_str v)) o)
     else exchanged (wire "RQST:CS:VOL:" (float_str v)) o).
Proof.
  intros Hd.
  unfold set_volume, try_except, bind.
  rewrite (send_delivers o d "VOLUME" "RQST:CS:VOL:" (float_str v) eq_refl Hd).
  simpl. destruct (str_in "ACK" (reply_text d)); reflexivity.
Qed.

(** X6. On a delivered reply [volume_up] asks the device for the cached
    volume plus 0.5 and [volume_down] for the cached volume minus 0.5,
    both return True, and the cache takes the new value exactly when the
    reply contains "ACK". *)
Theorem volume_steps_by_half o d :
  delivers o d ->
  let up := float_add (_volume o) float_half in
  let down := float_sub (_volume o) float_half in
  volume_up o
  = (Ret true,
     if str_in "ACK" (reply_text d)
     then with_volume up (exchanged (wire "RQST:CS:VOL:" (float_str up)) o)
     else exchanged (wire "RQST:CS:VOL:" (float_str up)) o)
  /\ volume_down o
     = (Ret true,
        if str_in "ACK" (reply_text d)
        then with_volume down (exchanged (wire "RQST:CS:VOL:" (float_str down)) o)
        else exchanged (wire "RQST:CS:VOL:" (float_str down)) o).
Proof.
  intros Hd up down. split.
  - unfold volume_up, try_except, bind, read. fold up.
    rewrite (set_volume_delivered o d up Hd). reflexivity.
  - unfold volume_down, try_except, bind, read. fold down.
    rewrite (set_volume_delivered o d down Hd). reflexivity.
Qed.

(** ** update_current_source, one reply *)

(** X12. On a delivered reply that is not an echo, [update_current_source]
    returns after that one exchange; it stores the fourth colon-separated
    field as the current source when the reply contains the marker
    "RSP:CS:ACT:" and no "ACK", and keeps the current source otherwise. *)
Theorem update_current_source_takes_fourth_field (n : nat) o d :
  delivers o d ->
  is_echo (reply_text d) = false ->
  let r := reply_text d in
  let o1 := exchanged ACT_QUERY o in
  update_current_source (S n) o
  = (Ret tt,
     if str_in "RSP:CS:ACT:" r && negb (str_in "ACK" r)
     then with_current_source (Some (nth 3 (split COLON r) EmptyString)) o1
     else o1).
Proof.
  intros Hd He r o1.
  assert (Hs : send_command "SOURCE" "?" o = (Ret (PStr r), o1))
    by (now apply send_delivers).
  simpl update_current_source.
  unfold try_except, bind at 1. rewrite Hs.
  unfold is_echo in He. fold r in He.
  destruct r as [|a r'] eqn:Er; [reflexivity|].
  cbn [truthy str_truthy andb] in *.
  unfold bind, lift, py_in, py_split, ret, assign.
  destruct (str_in "RSP:CS:ACT:" (String a r')) eqn:Hm; [|reflexivity].
  destruct (str_in "ACK" (String a r')) eqn:Hack; [reflexivity|].
  destruct (str_in "APROF" (String a r')) eqn:Hap; [discriminate He|].
  rewrite (marked_has_field "RSP:CS:ACT:" _ (le_n 3) Hm). reflexivity.
Qed.

(** ** update_all *)

(** X11. When [update_all] leaves a power other than "ON", it did not
    refresh the current source or the sources, and attempted at most the
    three exchanges of the power, volume and mute refreshes. *)
Theorem update_all_refreshes_sources_only_when_on (depth : nat) o :
  power (snd (update_all depth o)) <> Some POWER_ON ->
  sources (snd (update_all depth o)) = sources o
  /\ current_source (snd (update_all depth o)) = current_source o
  /\ trips (snd (update_all depth o)) <= trips o + 3.
Proof.
  unfold power, sources, current_source, update_all, bind.
  pose proof (keeps_update_power_state _sources (fun _ _ => eq_refl)
                (fun _ _ => eq_refl) (fun _ _ => eq_refl) o) as S1.
  pose proof (keeps_update_power_state _current_source (fun _ _ => eq_refl)
                (fun _ _ => eq_refl) (fun _ _ => eq_refl) o) as C1.
  pose proof (advances_update_power_state o) as T1.
  destruct (update_power_state o) as [[u1|e1] o1]; simpl in *;
    [|intros _; repeat split; [congruence|congruence|lia]].
  pose proof (keeps_update_volume _sources (fun _ _ => eq_refl)
                (fun _ _ => eq_refl) o1) as S2.
  pose proof (keeps_update_volume _current_source (fun _ _ => eq_refl)
                (fun _ _ => eq_refl) o1) as C2.
  pose proof (advances_update_volume o1) as T2.
  destruct (update_volume o1) as [[u2|e2] o2]; simpl in *;
    [|intros _; repeat split; [congruence|congruence|lia]].
  pose proof (keeps_update_mutestate _sources (fun _ _ => eq_refl)
                (fun _ _ => eq_refl) o2) as S3.
  pose proof (keeps_update_mutestate _current_source (fun _ _ => eq_refl)
                (fun _ _ => eq_refl) o2) as C3.
  pose proof (advances_update_mutestate o2) as T3.
  destruct (update_mutestate o2) as [[u3|e3] o3]; simpl in *;
    [|intros _; repeat split; [congruence|congruence|lia]].
  unfold read. simpl.
  destruct (opt_eqb (_power o3) POWER_ON) eqn:Hon; simpl;
    [|intros _; repeat split; [congruence|congruence|lia]].
  intros Hoff. exfalso. apply Hoff.
  assert (Hk : keeps _power (update_current_source depth ;;; update_sources)).
  { apply keeps_bind; [|intro].
    - apply keeps_update_current_source; intros; reflexivity.
    - apply keeps_update_sources; intros; reflexivity. }
  unfold keeps, bind in Hk. rewrite Hk.
  unfold opt_eqb in Hon. destruct (_power o3) as [s|]; [|discriminate].
  apply String.eqb_eq in Hon. now subst s.
Qed.

(** ** Objects that [__init__] returned *)

Lemma known_kept o o' :
  power_is_known o -> keeps_or_sets o o' -> power_is_known o'.
Proof.
  unfold power_is_known.
  intros Hk [[Hp _]|[[Hp _]|[[Hp _]|[Hp _]]]]; rewrite Hp; tauto.
Qed.

Lemma run_ops_known (ops : list Op) :
  forall o, power_is_known o -> power_is_known (run_ops ops o).
Proof.
  induction ops as [|op ops IH]; intros o H; simpl; [exact H|].
  apply IH. eapply known_kept; [exact H|apply run_op_keeps].
Qed.

Lemma init_returned_known (net : Network) (depth : nat)
  (host_ : string) (port_ : Z) (name_ : option string) :
  fst (__init__ (F := F) net depth host_ port_ name_) = Ret tt ->
  (exists p, net = Connected p)
  /\ power_is_known (snd (__init__ (F := F) net depth host_ port_ name_)).
Proof.
  intros H. split.
  - destruct net as [p|e]; [now exists p|].
    destruct e; discriminate H.
  - pose proof (init_follows (F := F) net depth host_ port_ name_) as [Hk _].
    revert H Hk. unfold __init__, bind, assign, read.
    cbn [fst snd].
    match goal with |- context [update_all depth ?o0] =>
      destruct (update_all depth o0) as [[u|e] o1]
    end; cbn [fst snd]; [|discriminate].
    unfold known_power, power_is_known.
    destruct (_power o1) as [s|] eqn:Ep; unfold ret, raise; cbn [fst snd];
      rewrite ?Ep; [|discriminate].
    intros _ [Hn|H3]; [discriminate|exact H3].
Qed.

(** X10. An object that [__init__] returned was connected and has a known
    power; from then on, after any sequence of public operations, the
    power is one of "ON", "OFF" and "STANDBY", and exactly one of [is_on]
    and [is_off] holds. *)
Theorem constructed_object_knows_its_power
  (net : Network) (depth : nat) (host_ : string) (port_ : Z)
  (name_ : option string) (ops : list Op) :
  fst (__init__ (F := F) net depth host_ port_ name_) = Ret tt ->
  let o := run_ops ops (snd (__init__ (F := F) net depth host_ port_ name_)) in
  (exists p, net = Connected p)
  /\ power_is_known o
  /\ is_on o = negb (is_off o).
Proof.
  intros H o.
  destruct (init_returned_known _ _ _ _ _ H) as [Hc Hk].
  assert (Hko : power_is_known o) by (now apply run_ops_known).
  assert (Hf : state_follows_power o)
    by (apply run_ops_follows, init_follows).
  split; [exact Hc|]. split; [exact Hko|].
  destruct Hf as [_ Hs]. unfold is_on, is_off. rewrite Hs.
  destruct Hko as [-> | [-> | ->]]; reflexivity.
Qed.

(** ** The platform entity *)

(** X13. Neither the constructor of [MLAvrDevice] nor its [update] ever
    completes when [str] of the cached volume is not empty. The
    constructor raises [TypeError] at the division of the volume string.
    [update] raises the very exception that [update_all] raised, the
    entity keeping all its attributes; when [update_all] returned it
    raises [TypeError], with the state assigned from [is_on] and [is_off]
    and the volume, mute and source attributes still the old ones. In
    both cases the client it holds is as [update_all] left it. *)
Theorem entity_never_completes (depth : nat) (avr : @MLCtrl F)
  (self : MediaPlayer.MLAvrDevice) :
  (str_truthy (float_str (_volume avr)) = true ->
   MediaPlayer.__init__ avr = Raise TypeError)
  /\ (str_truthy
        (float_str (_volume (snd (update_all depth (MediaPlayer._avr self)))))
      = true ->
      let avr' := snd (update_all depth (MediaPlayer._avr self)) in
      MediaPlayer.update depth self
      = match fst (update_all depth (MediaPlayer._avr self)) with
        | Raise e =>
            (Raise e,
             MediaPlayer.mkMLAvrDevice avr'
               (MediaPlayer._name self) (MediaPlayer._host self)
               (MediaPlayer._port self) (MediaPlayer._source_list self)
               (MediaPlayer._volume self) (MediaPlayer._muted self)
               (MediaPlayer._current_source self)
               (MediaPlayer._attr_state self))
        | Ret _ =>
            (Raise TypeError,
             MediaPlayer.mkMLAvrDevice avr'
               (MediaPlayer._name self) (MediaPlayer._host self)
               (MediaPlayer._port self) (MediaPlayer._source_list self)
               (MediaPlayer._volume self) (MediaPlayer._muted self)
               (MediaPlayer._current_source self)
               (if is_on avr' then Some MediaPlayer.ON
                else if is_off avr' then Some MediaPlayer.OFF
                else None))
        end).
Proof.
  split.
  - intros H. unfold MediaPlayer.__init__, MLAvrDevice_volume, volume.
    cbn [truthy]. now rewrite H.
  - unfold MediaPlayer.update.
    destruct (update_all depth (MediaPlayer._avr self)) as [[u|e] avr''];
      cbn [fst snd]; intros H; [|reflexivity].
    unfold MLAvrDevice_volume, volume. cbn [truthy]. rewrite H.
    reflexivity.
Qed.

(** ** The connection is made once *)

Lemma connection_exec (command param : string) :
  keeps (F := F) connection (_exec_appcommand_post command param).
Proof.
  intros o.
  unfold _exec_appcommand_post, try_except, bind, socket_send, socket_recv,
    lift, decode_utf8, ret, connection.
  destruct (_socket o) as [sk|] eqn:E; simpl; [|now rewrite E].
  destruct (peer sk (exchanges sk)) eqn:Ep; simpl; rewrite ?Ep; simpl;
    try reflexivity.
  destruct (utf8_valid bytes); reflexivity.
Qed.

Lemma connection_send_command (command param : string) :
  keeps (F := F) connection (send_command command param).
Proof.
  unfold send_command. apply keeps_bind; [apply keeps_lift|intro].
  apply connection_exec.
Qed.

Ltac conn_step :=
  first [ quiet_step | apply connection_send_command | assumption ].

Lemma connection_update_current_source (depth : nat) :
  keeps (F := F) connection (update_current_source depth).
Proof.
  induction depth as [|n IH]; simpl; [apply keeps_raise|].
  repeat conn_step.
Qed.

Lemma connection_set_volume (v : F) : keeps connection (set_volume v).
Proof. unfold set_volume. repeat conn_step. Qed.

Lemma connection_run_op (op : Op) o :
  connection (snd (run_op op o)) = connection o.
Proof.
  pose proof connection_update_current_source as Hu.
  pose proof connection_set_volume as Hv.
  destruct op; simpl;
    match goal with |- connection (snd (?m ?o)) = _ =>
      cut (keeps connection m); [intros H; apply H|]
    end;
    unfold update_all, update_power_state, update_sources, update_volume,
      update_mutestate, power_on, power_off, sleep, volume_up, volume_down,
      select_source, mute, decode_message;
    repeat first [ conn_step | apply Hu | apply Hv ].
Qed.

Lemma connection_run_ops (ops : list Op) :
  forall o, connection (run_ops ops o) = connection o.
Proof.
  induction ops as [|op ops IH]; intros o; simpl; [reflexivity|].
  rewrite IH. apply connection_run_op.
Qed.

(** X14. No operation opens, closes or replaces the socket: the peer
    behind it, or its absence, is the same after any sequence of public
    operations. An object whose connect failed stays without a socket,
    and every later call of the transport on it raises
    [AttributeError]. *)
Theorem connection_is_made_once (ops : list Op) o
  (e : ConnectFailure) (depth : nat) (host_ : string) (port_ : Z)
  (name_ : option string) (command param : string) :
  connection (run_ops ops o) = connection o
  /\ _socket (run_ops ops (snd (__init__ (F := F) (Unreachable e) depth host_ port_ name_)))
     = None
  /\ fst (_exec_appcommand_post command param
            (run_ops ops (snd (__init__ (F := F) (Unreachable e) depth host_ port_ name_))))
     = Raise AttributeError.
Proof.
  assert (Hn : _socket (run_ops ops
                 (snd (__init__ (F := F) (Unreachable e) depth host_ port_ name_)))
               = None).
  { pose proof (connection_run_ops ops
                  (snd (__init__ (F := F) (Unreachable e) depth host_ port_ name_)))
      as H.
    assert (H0 : connection
                   (snd (__init__ (F := F) (Unreachable e) depth host_ port_ name_))
                 = None) by (destruct e; reflexivity).
    rewrite H0 in H. unfold connection in H.
    destruct (_socket (run_ops ops _)); [discriminate H|reflexivity]. }
  split; [apply connection_run_ops|]. split; [exact Hn|].
  now rewrite exec_without_socket.
Qed.

End MoreFacts.

(** ** The further facts on concrete replies *)

Lemma send_command_table_run :
  send_command "heartbeat" "" unconnected = (Raise KeyError, unconnected)
  /\ exists comm, In ("HEARTBEAT", comm) COMMAND_MAPPING
                  /\ send_command "HEARTBEAT" "" unconnected
                     = _exec_appcommand_post comm "" unconnected.
Proof.
  split.
  - apply (proj1 (send_command_looks_up_the_table unconnected "heartbeat" "")).
    reflexivity.
  - apply (proj2 (send_command_looks_up_the_table unconnected "HEARTBEAT" "")).
    reflexivity.
Defined.

Lemma send_command_one_line_run :
  exists text,
    PStr (F := Dec) "RSP:CS:PWR:ON" = PStr text
    /\ count_char CR text = 0 /\ count_char LF text = 0.
Proof.
  apply (send_command_returns_one_line
           (fresh (script [Data ("RSP:CS:PWR:ON" ++ CRLF)] RecvError))
           "HEARTBEAT" "").
  reflexivity.
Defined.

Lemma update_mutestate_run :
  (let o := fresh (script [Data "RSP:CS:MUTE:ON"] RecvError) in
   _mute (snd (update_mutestate o)) = "ON"
   /\ muted (snd (update_mutestate o)) = false)
  /\ (let o := fresh (script [Data "RSP:CS:MUTE:on"] RecvError) in
      muted (snd (update_mutestate o)) = true).
Proof.
  split; intros o.
  - assert (Hd : delivers o "RSP:CS:MUTE:ON") by delivered.
    destruct (update_mutestate_takes_fourth_field o _ Hd) as (E & Hm).
    rewrite Hm, E. split; reflexivity.
  - assert (Hd : delivers o "RSP:CS:MUTE:on") by delivered.
    destruct (update_mutestate_takes_fourth_field o _ Hd) as (_ & Hm).
    rewrite Hm. reflexivity.
Defined.

Lemma volume_steps_run :
  let o := with_volume (mkDec 10 0) (fresh (script [Data "RSP:CS:VOL:ACK"] RecvError)) in
  (_volume (snd (volume_up o)) = mkDec 105 1
   /\ option_map outbox (_socket (snd (volume_up o)))
      = Some ["RQST:CS:VOL:10.5" ++ String CR ""])
  /\ (_volume (snd (volume_down o)) = mkDec 95 1
      /\ option_map outbox (_socket (snd (volume_down o)))
         = Some ["RQST:CS:VOL:9.5" ++ String CR ""]).
Proof.
  intros o.
  assert (Hd : delivers o "RSP:CS:VOL:ACK") by delivered.
  destruct (volume_steps_by_half o _ Hd) as (Eu & Ed).
  rewrite Eu, Ed. repeat split.
Defined.

Lemma update_current_source_reply_run :
  (let o := fresh (script [Data "RSP:CS:ACT:TV"] RecvError) in
   current_source (snd (update_current_source 1 o)) = Some "TV")
  /\ (let o := fresh (script [Data "RSP:CS:ACT:JACK"] RecvError) in
      current_source (snd (update_current_source 1 o)) = None).
Proof.
  split; intros o.
  - assert (Hd : delivers o "RSP:CS:ACT:TV") by delivered.
    rewrite (update_current_source_takes_fourth_field 0 o _ Hd eq_refl).
    reflexivity.
  - assert (Hd : delivers o "RSP:CS:ACT:JACK") by delivered.
    rewrite (update_current_source_takes_fourth_field 0 o _ Hd eq_refl).
    reflexivity.
Defined.

Lemma update_all_standby_run :
  let o := fresh standby_peer in
  sources (snd (update_all 10 o)) = sources o
  /\ current_source (snd (update_all 10 o)) = current_source o
  /\ trips (snd (update_all 10 o)) <= trips o + 3.
Proof.
  intros o.
  apply (update_all_refreshes_sources_only_when_on 10 o).
  vm_compute. intros H. discriminate H.
Defined.

Lemma constructed_object_run :
  let o := run_ops [Op_power_on; Op_update_volume]
             (snd (@__init__ Dec _ (Connected standby_peer) 10 "avr.local" 15003 None)) in
  (exists p, Connected standby_peer = Connected p)
  /\ power_is_known o
  /\ is_on o = negb (is_off o).
Proof.
  apply (constructed_object_knows_its_power
           (Connected standby_peer) 10 "avr.local" 15003 None
           [Op_power_on; Op_update_volume]).
  reflexivity.
Defined.

Lemma operation_frame_run :
  let o := fresh standby_peer in
  same_cached CachedVolume o (snd (run_op Op_power_off o))
  /\ same_cached CachedPower o (snd (run_op (Op_select_source "TV") o)).
Proof.
  intros o. split.
  - apply (operation_writes_only_its_fields Op_power_off CachedVolume o).
    reflexivity.
  - apply (operation_writes_only_its_fields (Op_select_source "TV") CachedPower o).
    reflexivity.
Defined.

Lemma entity_run :
  MediaPlayer.__init__ unconnected = Raise TypeError
  /\ fst (MediaPlayer.update 10 standby_entity) = Raise TypeError
  /\ MediaPlayer._attr_state (snd (MediaPlayer.update 10 standby_entity))
     = Some MediaPlayer.OFF
  /\ MediaPlayer._volume (snd (MediaPlayer.update 10 standby_entity))
     = MediaPlayer._volume standby_entity.
Proof.
  split.
  - apply (proj1 (entity_never_completes 10 unconnected standby_entity)).
    reflexivity.
  - assert (H : str_truthy
                  (float_str
                     (_volume (snd (update_all 10 (MediaPlayer._avr standby_entity)))))
                = true) by reflexivity.
    rewrite (proj2 (entity_never_completes 10 unconnected standby_entity) H).
    repeat split.
Defined.

(** The entity of the device in standby, run: the refresh goes through,
    the state is set to OFF, and the volume line raises. *)
Example entity_update_in_standby :
  fst (MediaPlayer.update 10 standby_entity) = Raise TypeError
  /\ MediaPlayer._attr_state (snd (MediaPlayer.update 10 standby_entity))
     = Some MediaPlayer.OFF
  /\ volume (MediaPlayer._avr (snd (MediaPlayer.update 10 standby_entity)))
     = PStr "23.5".
Proof. vm_compute. repeat split. Qed.

(** The constructor on the device that is on: five exchanges, every
    cached field refreshed. *)
Example constructor_on_a_device_that_is_on :
  let r := @__init__ Dec _ (Connected on_peer) 10 "avr.local" 15003 None in
  fst r = Ret tt
  /\ power (snd r) = Some "ON" /\ state (snd r) = Some "on"
  /\ volume (snd r) = PStr "23.5"
  /\ muted (snd r) = false
  /\ current_source (snd r) = Some "TV"
  /\ sources (snd r) = ["TV"; "CD"]
  /\ trips (snd r) = 5.
Proof. vm_compute. repeat split. Qed.

(** The entity around a client without a connection: [update] raises the
    [AttributeError] of [update_all] and assigns nothing. *)
Example entity_update_without_connection :
  let self :=
    MediaPlayer.mkMLAvrDevice unconnected None "avr.local" 15003 []
      (PFloat (mkDec 0 0)) false None None in
  fst (update_all 10 unconnected) = Raise AttributeError
  /\ MediaPlayer.update 10 self = (Raise AttributeError, self).
Proof. split; reflexivity. Qed.
